(** * A shallow embedding of memset.c

    The five fillers of [memset.c] ([bytewise_memset], [wordwise_32_memset],
    [wordwise_memset], [wordwise_32_unaligned_memset],
    [wordwise_unaligned_memset]) and the self test [check_memset], written
    as Rocq functions over an explicit machine state.

    - An unsigned integer of [w] bits is a [Z] in [0, 2^w); every operation
      that can leave this range is followed by its reduction modulo [2^w].
      The [int]s of the program ([i], [1<<i], [bytes_per_word]) never
      exceed [__WORDSIZE] and are plain [Z]s.
    - A pointer is the address it holds; the object it points into is a
      block of byte cells [base, base + length cells).  A store outside the
      block has no defined behaviour in C: the model stops with [Fault],
      keeping the state reached.  A pointer moves only after a store through
      it succeeded, so it never leaves the object by more than one step and
      its arithmetic needs no wrap-around.
    - A word store writes the byte lanes of the word in the byte order of
      the platform, at any alignment.
    - The state records every store in order, so that what a call stored,
      and where, can be stated besides the final contents of memory.
    - Every loop is run with fuel; [Timeout] is the answer of a loop that
      was given too little of it. *)

From Stdlib Require Import ZArith Lia Bool List.
From Stdlib Require DecimalString.
From stdpp Require Import base list strings.
Import ListNotations.
Local Open Scope Z_scope.

(** ** The platform

    [memset.c] depends on three facts of the target that it does not define
    itself: [__WORDSIZE] (a macro of the C library's headers: the width in
    bits of a native word, here also of [size_t] and [uintptr_t]), the byte
    order of a word store, and whether plain [char] is signed.  They are
    the parameters of the model. *)

Class Platform : Type := {
  lg_bytes : nat;      (* log2 of sizeof(uintptr_t)           *)
  big_endian : bool;   (* byte order of a word store          *)
  char_signed : bool   (* is plain char a signed type?        *)
}.

Definition i386 : Platform :=
  {| lg_bytes := 2; big_endian := false; char_signed := true |}.
Definition x86_64 : Platform :=
  {| lg_bytes := 3; big_endian := false; char_signed := true |}.
Definition aarch64 : Platform :=
  {| lg_bytes := 3; big_endian := false; char_signed := false |}.
Definition ppc32 : Platform :=
  {| lg_bytes := 2; big_endian := true; char_signed := false |}.

(** ** Machine state *)

(** A store the program performed: one byte, or one word of [n] bytes. *)
Inductive store_event : Type :=
| SByte (a v : Z)
| SWord (n : nat) (a x : Z).

(** The object the fillers write into, and the stores done so far (oldest
    first).  A cell holds the bit pattern of a byte, [0..255]. *)
Record machine : Type := Machine {
  base : Z;
  cells : list Z;
  trace : list store_event
}.

Definition limit (m : machine) : Z := base m + Z.of_nat (length (cells m)).

Inductive outcome (A : Type) : Type :=
| Done (a : A)          (* ran to completion                      *)
| Fault (m : machine)   (* access outside the object, state then  *)
| Abort                 (* an assert failed                       *)
| Timeout.              (* out of fuel                            *)
Arguments Done {A} a.
Arguments Fault {A} m.
Arguments Abort {A}.
Arguments Timeout {A}.

Definition bind {A B} (o : outcome A) (k : A -> outcome B) : outcome B :=
  match o with
  | Done a => k a
  | Fault m => Fault m
  | Abort => Abort
  | Timeout => Timeout
  end.

Notation "'let*' p ':=' o 'in' k" := (bind o (fun p => k))
  (at level 10, p pattern, o at level 100, k at level 200).

(** [while (cond) body]: [cond] may change the state (as [sz--] does). *)
Fixpoint while {S : Type} (fuel : nat) (cond : S -> bool * S)
    (body : S -> outcome S) (s : S) : outcome S :=
  match fuel with
  | O => Timeout
  | Datatypes.S fuel' =>
      let (b, s1) := cond s in
      if b then let* s2 := body s1 in while fuel' cond body s2
      else Done s1
  end.

(** [*p = v] for a byte pointer [p]. *)
Definition store_byte (m : machine) (a v : Z) : outcome machine :=
  if (base m <=? a) && (a <? limit m)
  then Done {| base := base m;
               cells := <[Z.to_nat (a - base m) := v]> (cells m);
               trace := trace m ++ [SByte a v] |}
  else Fault m.

(** The cell at address [a], if [a] lies in the object. *)
Definition peek (m : machine) (a : Z) : option Z :=
  if (base m <=? a) && (a <? limit m)
  then cells m !! Z.to_nat (a - base m)
  else None.

(** [buffer[i]] read through a byte pointer. *)
Definition load_byte (m : machine) (a : Z) : outcome Z :=
  match peek m a with
  | Some v => Done v
  | None => Fault m
  end.

(** A loop whose body may leave the enclosing function with [return]. *)
Inductive flow (S R : Type) : Type :=
| Next (s : S)      (* go on with the loop, or fall out of it *)
| Return (r : R).   (* the function returned [r]              *)
Arguments Next {S R} s.
Arguments Return {S R} r.

Fixpoint while_ret {S R : Type} (fuel : nat) (cond : S -> bool * S)
    (body : S -> outcome (flow S R)) (s : S) : outcome (flow S R) :=
  match fuel with
  | O => Timeout
  | Datatypes.S fuel' =>
      let (b, s1) := cond s in
      if b then
        let* r := body s1 in
        match r with
        | Next s2 => while_ret fuel' cond body s2
        | Return v => Done (Return v)
        end
      else Done (Next s1)
  end.

(** The type of [memset]: fuel, state, then [s], [c] and [sz]; the result
    is the returned pointer and the state. *)
Definition filler : Type :=
  nat -> machine -> Z -> Z -> Z -> outcome (Z * machine).

Section Model.
Context {P : Platform}.

(** Modelled from the spec: [__WORDSIZE], which [memset.c] takes from the
    C library.  The word width is a power of two, the number of bytes of a
    native word; in bits it is [8 * 2^lg_bytes].  [size_t] and [uintptr_t]
    have this many bits. *)
Definition __WORDSIZE : Z := 2 ^ (3 + Z.of_nat lg_bytes).
Definition size_modulus : Z := 2 ^ __WORDSIZE.
(** sizeof(uintptr_t) *)
Definition sizeof_word : nat := Nat.pow 2 lg_bytes.

(** Conversions to [size_t]/[uintptr_t], to [uint32_t] and [unsigned int]. *)
Definition to_word (z : Z) : Z := z mod size_modulus.
Definition to_uint32 (z : Z) : Z := z mod 2 ^ 32.

(** The byte lanes of a word of [n] bytes, in the order they reach memory. *)
Definition lane (x : Z) (k : nat) : Z :=
  Z.land (Z.shiftr x (8 * Z.of_nat k)) 255.
Definition word_lanes (n : nat) (x : Z) : list Z :=
  let l := lane x <$> seq 0 n in
  if big_endian then reverse l else l.

(** [*p = x] for a pointer [p] to a word of [n] bytes. *)
Definition store_word (n : nat) (m : machine) (a x : Z) : outcome machine :=
  if (base m <=? a) && (a + Z.of_nat n <=? limit m)
  then Done {| base := base m;
               cells := list_inserts (Z.to_nat (a - base m))
                                     (word_lanes n x) (cells m);
               trace := trace m ++ [SWord n a x] |}
  else Fault m.

(** [sz--] used as a condition, [sz] a [size_t]: the test sees the old
    value, the variable is decremented in any case. *)
Definition post_dec (sz : Z) : bool * Z := (negb (sz =? 0), to_word (sz - 1)).

(** [while (sz--) *p++ = x;] with [p] a byte pointer. *)
Definition byte_loop (fuel : nat) (x : Z) (p sz : Z) (m : machine)
  : outcome (Z * Z * machine) :=
  while fuel
    (fun '(p, sz, m) => let (b, sz') := post_dec sz in (b, (p, sz', m)))
    (fun '(p, sz, m) => let* m' := store_byte m p x in Done (p + 1, sz, m'))
    (p, sz, m).

(** [while (sz--) *p++ = x;] with [p] a pointer to words of [n] bytes. *)
Definition word_loop (fuel : nat) (n : nat) (x : Z) (p sz : Z) (m : machine)
  : outcome (Z * Z * machine) :=
  while fuel
    (fun '(p, sz, m) => let (b, sz') := post_dec sz in (b, (p, sz', m)))
    (fun '(p, sz, m) =>
       let* m' := store_word n m p x in Done (p + Z.of_nat n, sz, m'))
    (p, sz, m).

(** [void* bytewise_memset(void* s, int c, size_t sz)] *)
Definition bytewise_memset (fuel : nat) (m : machine) (s c sz : Z)
  : outcome (Z * machine) :=
  let p := s in
  let x := Z.land c 255 in
  let* (_, _, m) := byte_loop fuel x p sz m in
  Done (s, m).

(** [x |= x << 8; x |= x << 16;] on a [uint32_t]. *)
Definition pattern32 (x : Z) : Z :=
  let x := Z.lor x (to_uint32 (Z.shiftl x 8)) in
  let x := Z.lor x (to_uint32 (Z.shiftl x 16)) in
  x.

(** [void* wordwise_32_memset(void* s, int c, size_t sz)] *)
Definition wordwise_32_memset (fuel : nat) (m : machine) (s c sz : Z)
  : outcome (Z * machine) :=
  let p := s in
  let x := to_uint32 (Z.land c 255) in
  let x := pattern32 x in
  if negb (Z.land sz 3 =? 0) then Abort else
  let sz := Z.shiftr sz 2 in
  let* (_, _, m) := word_loop fuel 4 x p sz m in
  Done (s, m).

(** [for (i = 3; (1<<i) < __WORDSIZE; ++i) x |= x << (1<<i);] on a
    [uintptr_t]; the result is the final [(i, x)].  [i] and [1<<i] are
    [int]s that stay below [__WORDSIZE]. *)
Definition pattern_loop (fuel : nat) (x : Z) : outcome (Z * Z) :=
  while fuel
    (fun '(i, x) => (Z.shiftl 1 i <? __WORDSIZE, (i, x)))
    (fun '(i, x) =>
       Done (i + 1, Z.lor x (to_word (Z.shiftl x (Z.shiftl 1 i)))))
    (3, x).

(** [void* wordwise_memset(void* s, int c, size_t sz)] *)
Definition wordwise_memset (fuel : nat) (m : machine) (s c sz : Z)
  : outcome (Z * machine) :=
  let p := s in
  let x := to_word (Z.land c 255) in
  let* (i, x) := pattern_loop fuel x in
  let bytes_per_word := Z.shiftl 1 (i - 3) in
  if negb (Z.land sz (to_word (bytes_per_word - 1)) =? 0) then Abort else
  let sz := Z.shiftr sz (i - 3) in
  let* (_, _, m) := word_loop fuel sizeof_word x p sz m in
  Done (s, m).

(** The prologue of the unaligned fillers,
    [while (((unsigned int)pp & mask) && sz--) *pp++ = xx;]
    [&&] evaluates [sz--] only when the pointer is misaligned. *)
Definition prologue (fuel : nat) (mask xx : Z) (pp sz : Z) (m : machine)
  : outcome (Z * Z * machine) :=
  while fuel
    (fun '(pp, sz, m) =>
       if negb (Z.land (to_uint32 pp) mask =? 0)
       then let (b, sz') := post_dec sz in (b, (pp, sz', m))
       else (false, (pp, sz, m)))
    (fun '(pp, sz, m) => let* m' := store_byte m pp xx in Done (pp + 1, sz, m'))
    (pp, sz, m).

(** [void* wordwise_32_unaligned_memset(void* s, int c, size_t sz)] *)
Definition wordwise_32_unaligned_memset (fuel : nat) (m : machine)
    (s c sz : Z) : outcome (Z * machine) :=
  let x := to_uint32 (Z.land c 255) in
  let xx := Z.land c 255 in
  let pp := s in
  let* (pp, sz, m) := prologue fuel 3 xx pp sz m in
  let p := pp in
  let tail := Z.land sz 3 in
  let x := pattern32 x in
  let sz := Z.shiftr sz 2 in
  let* (p, _, m) := word_loop fuel 4 x p sz m in
  let pp := p in
  let* (_, _, m) := byte_loop fuel xx pp tail m in
  Done (s, m).

(** [void* wordwise_unaligned_memset(void* s, int c, size_t sz)] *)
Definition wordwise_unaligned_memset (fuel : nat) (m : machine)
    (s c sz : Z) : outcome (Z * machine) :=
  let x := to_word (Z.land c 255) in
  let pp := s in
  let xx := Z.land c 255 in
  let* (i, x) := pattern_loop fuel x in
  let bytes_per_word := Z.shiftl 1 (i - 3) in
  let* (pp, sz, m) := prologue fuel (to_uint32 (bytes_per_word - 1)) xx pp sz m in
  let tail := Z.land sz (to_word (bytes_per_word - 1)) in
  let p := pp in
  let sz := Z.shiftr sz (i - 3) in
  let* (p, _, m) := word_loop fuel sizeof_word x p sz m in
  let pp := p in
  let* (_, _, m) := byte_loop fuel xx pp tail m in
  Done (s, m).

(** [#define BUFFER_LEN 4096] *)
Definition BUFFER_LEN : Z := 4096.

(** Conversion to plain [char]: the value a [char] object holds after an
    [int] (or a byte of memory) is stored in it. *)
Definition to_char (z : Z) : Z :=
  if char_signed then (z + 128) mod 256 - 128 else z mod 256.

(** [int check_memset(void* f(), int unaligned)].  The array [buffer] is the
    object of the machine state [m], whose cells are its contents on entry.
    The result is the [int] returned: [0], or [i + 1] for a mismatch at
    [buffer[i]]. *)
Definition check_memset (f : filler) (fuel : nat) (unaligned : Z)
    (m : machine) : outcome Z :=
  let buffer := base m in
  let* r :=
    while_ret fuel
      (fun '(set, m) => (to_uint32 set <=? 255, (set, m)))
      (fun '(set, m) =>
         let* (_, m) :=
           f fuel m (buffer + unaligned) set (BUFFER_LEN - 2 * unaligned) in
         let* r :=
           while_ret fuel
             (fun i => (i <? BUFFER_LEN - 2 * unaligned, i))
             (fun i =>
                let* v := load_byte m (buffer + i) in
                if negb (to_char v =? set) then Done (Return (i + 1))
                else Done (Next (i + 1)))
             unaligned in
         match r with
         | Return v => Done (Return v)
         | Next _ => Done (Next (to_char (set + 1), m))
         end)
      (0, m) in
  match r with
  | Return v => Done v
  | Next _ => Done 0
  end.

End Model.

(** ** What a fill is

    The cells of an object at [b] after the bytes of [a, a + n) were all set
    to [v], and the state after a run of stores [evs] that did this. *)
Definition fill_cells (b : Z) (l : list Z) (a n v : Z) : list Z :=
  imap (fun i old =>
          if (a <=? b + Z.of_nat i) && (b + Z.of_nat i <? a + n)
          then v else old) l.

Definition filled (m : machine) (a n v : Z) (evs : list store_event)
  : machine :=
  {| base := base m;
     cells := fill_cells (base m) (cells m) a n v;
     trace := trace m ++ evs |}.

(** The caller owns the [n] bytes at [a]: they lie in the object (an empty
    region lies anywhere). *)
Definition writable (m : machine) (a n : Z) : Prop :=
  n = 0 \/ (base m <= a /\ a + n <= limit m).

(** The stores of [while (n--) *p++ = v;]: [n] bytes from [p] upwards. *)
Definition byte_stores (p : Z) (n : nat) (v : Z) : list store_event :=
  map (fun k => SByte (p + Z.of_nat k) v) (seq 0 n).

(** The same for words of [w] bytes. *)
Definition word_stores (w : nat) (p : Z) (n : nat) (x : Z)
  : list store_event :=
  map (fun k => SWord w (p + Z.of_nat w * Z.of_nat k) x) (seq 0 n).

(** The stores of the three phases of an unaligned filler with words of
    [w] bytes, pattern word [x] and byte [b]: [d] bytes up to the boundary,
    the whole words of what remains, the bytes left over. *)
Definition phase_stores (w : nat) (x b : Z) (dest sz : Z)
  : list store_event :=
  let W := Z.of_nat w in
  let d := (- dest) mod W in
  let rest := sz - d in
  byte_stores dest (Z.to_nat d) b ++
  word_stores w (dest + d) (Z.to_nat (rest / W)) x ++
  byte_stores (dest + d + W * (rest / W)) (Z.to_nat (rest mod W)) b.

(** [evs] is a run of stores in three phases over [dest, dest + sz), with
    words of [w] bytes: [d] single bytes up to a [w]-byte boundary, [q]
    whole words from that boundary, [t] single bytes after them; [d] and
    [t] are less than [w] and [d + w * q + t = sz]. *)
Definition three_phase_trace (w : nat) (b : Z) (dest sz : Z)
    (evs : list store_event) : Prop :=
  exists d q t x,
    0 <= d < Z.of_nat w /\ 0 <= q /\ 0 <= t < Z.of_nat w /\
    d + Z.of_nat w * q + t = sz /\
    (dest + d) mod Z.of_nat w = 0 /\
    evs = byte_stores dest (Z.to_nat d) b ++
          word_stores w (dest + d) (Z.to_nat q) x ++
          byte_stores (dest + d + Z.of_nat w * q) (Z.to_nat t) b.

(** [x] is the byte [b] repeated over its low [bits] bits, zero above. *)
Definition replicated (bits b x : Z) : Prop :=
  forall n, 0 <= n -> Z.testbit x n = (n <? bits) && Z.testbit b (n mod 8).

(** [m'] is [m] with the bytes of [dest, dest + sz) set to [b] and every
    other byte as it was. *)
Definition fills (m m' : machine) (dest sz b : Z) : Prop :=
  (forall a, dest <= a < dest + sz -> peek m' a = Some b) /\
  (forall a, ~ (dest <= a < dest + sz) -> peek m' a = peek m a).

(** ** Objects used in the examples *)

(** Sixteen zero bytes at address 4096. *)
Definition buf16 : machine :=
  {| base := 4096; cells := replicate 16 0; trace := [] |}.

(** [char buffer[BUFFER_LEN]], zeroed, at address 8192. *)
Definition buf4096 : machine :=
  {| base := 8192; cells := replicate 4096 0; trace := [] |}.

(** A filler that is wrong for every value above 127: it stores
    [c & 0x7f].  An input for [check_memset]. *)
Definition low7_memset {P : Platform} : filler :=
  fun fuel m s c sz =>
    let* (_, _, m) := byte_loop fuel (Z.land c 127) s sz m in
    Done (s, m).

(** A filler that leaves out the last byte of the request.  Another input
    for [check_memset]. *)
Definition one_short_memset {P : Platform} : filler :=
  fun fuel m s c sz =>
    let* (_, _, m) := byte_loop fuel (Z.land c 255) s (to_word (sz - 1)) m in
    Done (s, m).

(** [f] fills what [check_memset] asks for with value [set]: called on the
    buffer at offset [u] it returns, and then every [buffer[j]] that
    [check_memset] reads holds the byte [set & 0xFF]. *)
Definition fills_buffer (f : filler) (fuel : nat) (u set : Z) : Prop :=
  forall m, Z.of_nat (length (cells m)) = BUFFER_LEN ->
  exists r m',
    f fuel m (base m + u) set (BUFFER_LEN - 2 * u) = Done (r, m') /\
    base m' = base m /\
    length (cells m') = length (cells m) /\
    forall j, u <= j < BUFFER_LEN - 2 * u ->
      peek m' (base m + j) = Some (Z.land set 255).

(** The same when only the calls that return are known to be right. *)
Definition fills_buffer_if_returns (f : filler) (fuel : nat) (u set : Z)
  : Prop :=
  forall m r m', Z.of_nat (length (cells m)) = BUFFER_LEN ->
    f fuel m (base m + u) set (BUFFER_LEN - 2 * u) = Done (r, m') ->
    base m' = base m /\
    length (cells m') = length (cells m) /\
    forall j, u <= j < BUFFER_LEN - 2 * u ->
      peek m' (base m + j) = Some (Z.land set 255).

(** ** The driver *)

(** The character [\n]. *)
Definition newline : string := String (Ascii.ascii_of_nat 10) EmptyString.

(** What [printf] writes for [%d]. *)
Definition decimal (z : Z) : string :=
  DecimalString.NilZero.string_of_int (Z.to_int z).

Section Driver.
Context {P : Platform}.

(** The macro [CHECK(f, unaligned)].  [name] is [#f], the text of the
    argument; [m] holds the array [buffer] of this call of [check_memset];
    [out] is what the program has printed so far, and the result what it
    has printed afterwards. *)
Definition CHECK (name : string) (f : filler) (fuel : nat) (unaligned : Z)
    (m : machine) (out : string) : outcome string :=
  let* fail_byte := check_memset f fuel unaligned m in
  if negb (fail_byte =? 0) then
    Done (out +:+ (if negb (unaligned =? 0) then "Unaligned" else "Aligned")
              +:+ " " +:+ name +:+ " check failed on byte "
              +:+ decimal (fail_byte - 1) +:+ "." +:+ newline)
  else Done out.

(** [int main(int argc, char** argv)].  [memset] is the C library's;
    [buffer k] is the array [buffer] of the [k]-th call of [check_memset],
    with whatever it holds on entry.  The result is the exit status and
    the text printed. *)
Definition main (memset : filler) (fuel : nat) (buffer : nat -> machine)
  : outcome (Z * string) :=
  let out := ""%string in
  let* out := CHECK "memset" memset fuel 0 (buffer 0%nat) out in
  let* out := CHECK "memset" memset fuel 1 (buffer 1%nat) out in
  let* out := CHECK "bytewise_memset" bytewise_memset fuel 0
                    (buffer 2%nat) out in
  let* out := CHECK "bytewise_memset" bytewise_memset fuel 1
                    (buffer 3%nat) out in
  let* out := CHECK "wordwise_32_memset" wordwise_32_memset fuel 0
                    (buffer 4%nat) out in
  let* out := CHECK "wordwise_memset" wordwise_memset fuel 0
                    (buffer 5%nat) out in
  let* out := CHECK "wordwise_32_unaligned_memset"
                    wordwise_32_unaligned_memset fuel 0 (buffer 6%nat) out in
  let* out := CHECK "wordwise_32_unaligned_memset"
                    wordwise_32_unaligned_memset fuel 1 (buffer 7%nat) out in
  let* out := CHECK "wordwise_unaligned_memset"
                    wordwise_unaligned_memset fuel 0 (buffer 8%nat) out in
  let* out := CHECK "wordwise_unaligned_memset"
                    wordwise_unaligned_memset fuel 1 (buffer 9%nat) out in
  Done (0, out).

End Driver.

(** * Properties *)

(** ** Reasoning about fills *)

Ltac split_cmp :=
  repeat match goal with
         | |- context [?a <=? ?b] => destruct (Z.leb_spec a b)
         | |- context [?a <? ?b] => destruct (Z.ltb_spec a b)
         | |- context [?a =? ?b] => destruct (Z.eqb_spec a b)
         end; simpl.

Lemma fill_cells_lookup b l a n v (i : nat) :
  fill_cells b l a n v !! i =
  (fun old => if (a <=? b + Z.of_nat i) && (b + Z.of_nat i <? a + n)
              then v else old) <$> l !! i.
Proof. unfold fill_cells. apply list_lookup_imap. Qed.

Lemma fill_cells_length b l a n v :
  length (fill_cells b l a n v) = length l.
Proof. unfold fill_cells. apply length_imap. Qed.

Lemma fill_cells_none b l a n v : n <= 0 -> fill_cells b l a n v = l.
Proof.
  intros Hn. apply list_eq. intros i. rewrite fill_cells_lookup.
  destruct (l !! i); simpl; [f_equal|reflexivity].
  split_cmp; try reflexivity; lia.
Qed.

Lemma fill_cells_fill b l a n1 n2 v :
  0 <= n1 -> 0 <= n2 ->
  fill_cells b (fill_cells b l a n1 v) (a + n1) n2 v =
  fill_cells b l a (n1 + n2) v.
Proof.
  intros H1 H2. apply list_eq. intros i. rewrite !fill_cells_lookup.
  destruct (l !! i); simpl; [f_equal|reflexivity].
  split_cmp; try reflexivity; lia.
Qed.

Lemma insert_as_fill b (l : list Z) a v :
  b <= a -> <[Z.to_nat (a - b) := v]> l = fill_cells b l a 1 v.
Proof.
  intros Hb. apply list_eq. intros i.
  rewrite list_lookup_insert, fill_cells_lookup.
  destruct (decide _) as [[<- Hlen]|Hne].
  - destruct (lookup_lt_is_Some_2 l _ Hlen) as [old ->]. simpl. f_equal.
    split_cmp; try reflexivity; lia.
  - destruct (l !! i) eqn:Hi; simpl; [f_equal|reflexivity].
    apply lookup_lt_Some in Hi.
    split_cmp; try reflexivity. exfalso. apply Hne. split; lia.
Qed.

Lemma inserts_as_fill b (l : list Z) a (w : nat) v :
  b <= a ->
  list_inserts (Z.to_nat (a - b)) (replicate w v) l =
  fill_cells b l a (Z.of_nat w) v.
Proof.
  intros Hb. apply list_eq. intros i. rewrite fill_cells_lookup.
  destruct (l !! i) eqn:Hi; simpl.
  - pose proof (lookup_lt_Some _ _ _ Hi) as Hlen.
    destruct (decide (i < Z.to_nat (a - b))%nat) as [Hlt|Hge].
    { rewrite list_lookup_inserts_lt by exact Hlt. rewrite Hi. f_equal.
      split_cmp; try reflexivity; lia. }
    destruct (decide (Z.to_nat (a - b) + w <= i)%nat) as [Hhi|Hin].
    { rewrite list_lookup_inserts_ge by (rewrite length_replicate; exact Hhi).
      rewrite Hi. f_equal. split_cmp; try reflexivity; lia. }
    rewrite list_lookup_inserts by (rewrite ?length_replicate; lia).
    rewrite lookup_replicate_2 by lia. f_equal.
    split_cmp; try reflexivity; lia.
  - apply lookup_ge_None in Hi. apply lookup_ge_None.
    rewrite length_inserts. exact Hi.
Qed.

Lemma peek_filled m a n v evs x :
  peek (filled m a n v evs) x =
  if (a <=? x) && (x <? a + n)
  then (if (base m <=? x) && (x <? limit m) then Some v else None)
  else peek m x.
Proof.
  unfold peek, filled, limit; simpl. rewrite fill_cells_length.
  destruct ((base m <=? x) && (x <? base m + Z.of_nat (length (cells m))))
    eqn:Hb.
  - apply andb_true_iff in Hb. destruct Hb as [H1%Z.leb_le H2%Z.ltb_lt].
    rewrite fill_cells_lookup.
    destruct (lookup_lt_is_Some_2 (cells m) (Z.to_nat (x - base m)))
      as [old Hold]; [lia|].
    rewrite Hold; simpl. rewrite Z2Nat.id by lia.
    replace (base m + (x - base m)) with x by lia.
    destruct ((a <=? x) && (x <? a + n)); reflexivity.
  - destruct ((a <=? x) && (x <? a + n)); reflexivity.
Qed.

Lemma filled_filled m a n1 n2 v e1 e2 :
  0 <= n1 -> 0 <= n2 ->
  filled (filled m a n1 v e1) (a + n1) n2 v e2 =
  filled m a (n1 + n2) v (e1 ++ e2).
Proof.
  intros H1 H2. unfold filled; simpl.
  rewrite fill_cells_fill by assumption. rewrite app_assoc. reflexivity.
Qed.

Lemma filled_none m a v : filled m a 0 v [] = m.
Proof.
  unfold filled. rewrite fill_cells_none by lia. rewrite app_nil_r.
  destruct m; reflexivity.
Qed.

Lemma limit_filled m a n v evs : limit (filled m a n v evs) = limit m.
Proof. unfold limit, filled; simpl. rewrite fill_cells_length. reflexivity. Qed.

Lemma store_byte_ok m a v :
  base m <= a < limit m ->
  store_byte m a v = Done (filled m a 1 v [SByte a v]).
Proof.
  intros [H1 H2]. unfold store_byte.
  apply Z.leb_le in H1 as H1'. apply Z.ltb_lt in H2 as H2'.
  rewrite H1', H2'; simpl. unfold filled.
  rewrite insert_as_fill by exact H1. reflexivity.
Qed.

Lemma store_byte_fault m a v :
  ~ (base m <= a < limit m) -> store_byte m a v = Fault m.
Proof.
  intros Hn. unfold store_byte.
  split_cmp; try reflexivity. lia.
Qed.

Lemma byte_stores_S p n v :
  byte_stores p (S n) v = SByte p v :: byte_stores (p + 1) n v.
Proof.
  unfold byte_stores. simpl. rewrite Z.add_0_r. f_equal.
  rewrite <- seq_shift, map_map. apply map_ext. intros k. f_equal. lia.
Qed.

Lemma word_stores_S w p n x :
  word_stores w p (S n) x =
  SWord w p x :: word_stores w (p + Z.of_nat w) n x.
Proof.
  unfold word_stores. simpl. rewrite Z.mul_0_r, Z.add_0_r. f_equal.
  rewrite <- seq_shift, map_map. apply map_ext. intros k. f_equal. lia.
Qed.

(** ** Bit patterns *)

Lemma land_255_range c : 0 <= Z.land c 255 < 256.
Proof.
  change 255 with (Z.ones 8). rewrite Z.land_ones by lia.
  apply Z.mod_pos_bound. lia.
Qed.

Lemma land_255_idem c : Z.land (Z.land c 255) 255 = Z.land c 255.
Proof. rewrite <- Z.land_assoc, Z.land_diag. reflexivity. Qed.

Lemma byte_high_bits b n : 0 <= b < 256 -> 8 <= n -> Z.testbit b n = false.
Proof.
  intros Hb Hn. rewrite <- (Z.mod_small b (2 ^ 8)) by (simpl; lia).
  apply Z.mod_pow2_bits_high. lia.
Qed.

Lemma replicated_byte b : 0 <= b < 256 -> replicated 8 b b.
Proof.
  intros Hb n Hn. destruct (Z.ltb_spec n 8); simpl.
  - rewrite Z.mod_small by lia. reflexivity.
  - apply byte_high_bits; assumption.
Qed.

Lemma replicated_double bits w b x :
  0 < bits -> bits mod 8 = 0 -> 2 * bits <= w ->
  replicated bits b x ->
  replicated (2 * bits) b (Z.lor x (Z.shiftl x bits mod 2 ^ w)).
Proof.
  intros Hpos Hdiv Hw Hx n Hn.
  assert (Hmod : (n - bits) mod 8 = n mod 8).
  { apply Z.mod_divide in Hdiv; [|lia]. destruct Hdiv as [q ->].
    replace (n - q * 8) with (n + (- q) * 8) by lia. apply Z.mod_add. lia. }
  rewrite Z.lor_spec, (Hx n Hn).
  destruct (Z.ltb_spec n w) as [Hlow|Hhigh].
  - rewrite Z.mod_pow2_bits_low by lia. rewrite Z.shiftl_spec by lia.
    destruct (Z.ltb_spec n bits) as [H1|H1]; simpl.
    + rewrite (Z.testbit_neg_r x (n - bits)) by lia. rewrite orb_false_r.
      destruct (Z.ltb_spec n (2 * bits)); [reflexivity|lia].
    + rewrite (Hx (n - bits)) by lia. rewrite Hmod.
      destruct (Z.ltb_spec (n - bits) bits), (Z.ltb_spec n (2 * bits));
        try reflexivity; lia.
  - rewrite Z.mod_pow2_bits_high by lia. rewrite orb_false_r.
    destruct (Z.ltb_spec n bits), (Z.ltb_spec n (2 * bits));
      try reflexivity; lia.
Qed.

Lemma lane_replicated bits b x (k : nat) :
  0 <= b < 256 -> replicated bits b x -> 8 * Z.of_nat k + 8 <= bits ->
  Z.land (Z.shiftr x (8 * Z.of_nat k)) 255 = b.
Proof.
  intros Hb Hx Hk. apply Z.bits_inj'. intros j Hj.
  rewrite Z.land_spec, Z.shiftr_spec by lia. rewrite Hx by lia.
  change 255 with (Z.ones 8).
  destruct (Z.ltb_spec j 8) as [Hlow|Hhigh].
  - rewrite Z.ones_spec_low by lia. rewrite andb_true_r.
    replace ((j + 8 * Z.of_nat k) mod 8) with j.
    + destruct (Z.ltb_spec (j + 8 * Z.of_nat k) bits); [reflexivity|lia].
    + rewrite Z.mul_comm, Z.mod_add by lia. rewrite Z.mod_small; lia.
  - rewrite Z.ones_spec_high by lia. rewrite andb_false_r.
    symmetry. apply byte_high_bits; assumption.
Qed.

Lemma replicated_pattern32 b :
  0 <= b < 256 -> replicated 32 b (pattern32 (to_uint32 b)).
Proof.
  intros Hb. unfold pattern32, to_uint32.
  rewrite (Z.mod_small b) by (change (2 ^ 32) with 4294967296; lia).
  apply (replicated_double 16 32); try lia; [reflexivity|].
  apply (replicated_double 8 32); try lia; [reflexivity|].
  apply replicated_byte. exact Hb.
Qed.

(** ** The loops *)

Section Loops.
Context {P : Platform}.

Lemma WORDSIZE_ge : 8 <= __WORDSIZE.
Proof.
  unfold __WORDSIZE. change 8 with (2 ^ 3). apply Z.pow_le_mono_r; lia.
Qed.

Lemma size_modulus_ge : 256 <= size_modulus.
Proof.
  unfold size_modulus. change 256 with (2 ^ 8).
  apply Z.pow_le_mono_r; [lia|apply WORDSIZE_ge].
Qed.

Lemma to_word_small z : 0 <= z < size_modulus -> to_word z = z.
Proof. intros H. unfold to_word. apply Z.mod_small. exact H. Qed.

Lemma to_word_minus_1 : to_word (0 - 1) = size_modulus - 1.
Proof.
  pose proof size_modulus_ge. unfold to_word. symmetry.
  apply Z.mod_unique with (q := -1); lia.
Qed.

Lemma byte_loop_S fuel x p sz m :
  byte_loop (S fuel) x p sz m =
  if sz =? 0 then Done (p, to_word (sz - 1), m)
  else let* m' := store_byte m p x in
       byte_loop fuel x (p + 1) (to_word (sz - 1)) m'.
Proof.
  unfold byte_loop; simpl. destruct (sz =? 0); simpl; [reflexivity|].
  destruct (store_byte m p x); reflexivity.
Qed.

Lemma word_loop_S fuel n x p sz m :
  word_loop (S fuel) n x p sz m =
  if sz =? 0 then Done (p, to_word (sz - 1), m)
  else let* m' := store_word n m p x in
       word_loop fuel n x (p + Z.of_nat n) (to_word (sz - 1)) m'.
Proof.
  unfold word_loop; simpl. destruct (sz =? 0); simpl; [reflexivity|].
  destruct (store_word n m p x); reflexivity.
Qed.

Lemma prologue_S fuel mask xx pp sz m :
  prologue (S fuel) mask xx pp sz m =
  if Z.land (to_uint32 pp) mask =? 0 then Done (pp, sz, m)
  else if sz =? 0 then Done (pp, to_word (sz - 1), m)
  else let* m' := store_byte m pp xx in
       prologue fuel mask xx (pp + 1) (to_word (sz - 1)) m'.
Proof.
  unfold prologue; simpl.
  destruct (Z.land (to_uint32 pp) mask =? 0); simpl; [reflexivity|].
  destruct (sz =? 0); simpl; [reflexivity|].
  destruct (store_byte m pp xx); reflexivity.
Qed.

(** [while (n--) *p++ = x;] over bytes that lie in the object. *)
Lemma byte_loop_spec x (n : nat) : forall fuel p m,
  (n < fuel)%nat -> Z.of_nat n < size_modulus ->
  writable m p (Z.of_nat n) ->
  byte_loop fuel x p (Z.of_nat n) m =
  Done (p + Z.of_nat n, size_modulus - 1,
        filled m p (Z.of_nat n) x (byte_stores p n x)).
Proof.
  induction n as [|n IH]; intros fuel p m Hf Hn Hw;
    (destruct fuel as [|fuel]; [lia|]); rewrite byte_loop_S.
  - change (Z.of_nat 0) with 0. change (0 =? 0) with true. cbv iota.
    rewrite to_word_minus_1, Z.add_0_r, filled_none. reflexivity.
  - destruct (Z.eqb_spec (Z.of_nat (S n)) 0) as [H0|_]; [lia|].
    destruct Hw as [H0|[Hb Hl]]; [lia|].
    rewrite store_byte_ok by lia. simpl bind.
    rewrite to_word_small by lia.
    replace (Z.of_nat (S n) - 1) with (Z.of_nat n) by lia.
    rewrite IH; try lia.
    + rewrite filled_filled by lia. rewrite byte_stores_S.
      replace (1 + Z.of_nat n) with (Z.of_nat (S n)) by lia.
      replace (p + 1 + Z.of_nat n) with (p + Z.of_nat (S n)) by lia.
      reflexivity.
    + right. rewrite limit_filled. simpl. lia.
Qed.

Lemma store_word_ok w m a x v :
  base m <= a -> a + Z.of_nat w <= limit m ->
  word_lanes w x = replicate w v ->
  store_word w m a x = Done (filled m a (Z.of_nat w) v [SWord w a x]).
Proof.
  intros H1 H2 Hx. unfold store_word.
  apply Z.leb_le in H1 as H1'. apply Z.leb_le in H2 as H2'.
  rewrite H1', H2'; simpl. unfold filled.
  rewrite Hx, inserts_as_fill by exact H1. reflexivity.
Qed.

Lemma store_word_fault w m a x :
  ~ (base m <= a /\ a + Z.of_nat w <= limit m) ->
  store_word w m a x = Fault m.
Proof.
  intros Hn. unfold store_word. split_cmp; try reflexivity. lia.
Qed.

(** [while (n--) *p++ = x;] over words that lie in the object. *)
Lemma word_loop_spec w x v (n : nat) : (0 < w)%nat -> forall fuel p m,
  (n < fuel)%nat -> Z.of_nat n < size_modulus ->
  word_lanes w x = replicate w v ->
  writable m p (Z.of_nat w * Z.of_nat n) ->
  word_loop fuel w x p (Z.of_nat n) m =
  Done (p + Z.of_nat w * Z.of_nat n, size_modulus - 1,
        filled m p (Z.of_nat w * Z.of_nat n) v (word_stores w p n x)).
Proof.
  intros Hw0.
  induction n as [|n IH]; intros fuel p m Hf Hn Hx Hw;
    (destruct fuel as [|fuel]; [lia|]); rewrite word_loop_S.
  - change (Z.of_nat 0) with 0. change (0 =? 0) with true. cbv iota.
    rewrite to_word_minus_1, Z.mul_0_r, Z.add_0_r, filled_none.
    reflexivity.
  - destruct (Z.eqb_spec (Z.of_nat (S n)) 0) as [H0|_]; [lia|].
    destruct Hw as [H0|[Hb Hl]]; [nia|].
    rewrite (store_word_ok w m p x v) by (try assumption; lia).
    simpl bind. rewrite to_word_small by lia.
    replace (Z.of_nat (S n) - 1) with (Z.of_nat n) by lia.
    rewrite IH; try assumption; try lia.
    + rewrite filled_filled by lia. rewrite word_stores_S.
      replace (Z.of_nat w + Z.of_nat w * Z.of_nat n)
        with (Z.of_nat w * Z.of_nat (S n)) by lia.
      replace (p + Z.of_nat w + Z.of_nat w * Z.of_nat n)
        with (p + Z.of_nat w * Z.of_nat (S n)) by lia.
      reflexivity.
    + right. rewrite limit_filled. simpl. lia.
Qed.

Lemma while_S {S : Type} fuel cond body (s : S) :
  while (Datatypes.S fuel) cond body s =
  let (b, s1) := cond s in
  if b then let* s2 := body s1 in while fuel cond body s2 else Done s1.
Proof. reflexivity. Qed.

Lemma sizeof_word_Z : Z.of_nat sizeof_word = 2 ^ Z.of_nat lg_bytes.
Proof. unfold sizeof_word. rewrite Nat2Z.inj_pow. reflexivity. Qed.

Lemma WORDSIZE_bytes : __WORDSIZE = 8 * Z.of_nat sizeof_word.
Proof.
  unfold __WORDSIZE. rewrite sizeof_word_Z, Z.pow_add_r by lia. reflexivity.
Qed.

Lemma sizeof_word_pos : 0 < Z.of_nat sizeof_word.
Proof. rewrite sizeof_word_Z. apply Z.pow_pos_nonneg; lia. Qed.

(** A word made of copies of [b] reaches memory as copies of [b], in
    either byte order. *)
Lemma word_lanes_replicated bits b x (w : nat) :
  0 <= b < 256 -> replicated bits b x -> 8 * Z.of_nat w <= bits ->
  word_lanes w x = replicate w b.
Proof.
  intros Hb Hx Hw. unfold word_lanes.
  assert (Hl : lane x <$> seq 0 w = replicate w b).
  { apply list_eq. intros i. rewrite list_lookup_fmap.
    destruct (decide (i < w)%nat) as [Hi|Hi].
    - rewrite lookup_seq_lt, lookup_replicate_2 by exact Hi. simpl.
      f_equal. unfold lane. apply (lane_replicated bits); try assumption.
      lia.
    - rewrite lookup_seq_ge by lia.
      symmetry. apply lookup_replicate_None. lia. }
  rewrite Hl. destruct big_endian; [apply reverse_replicate|reflexivity].
Qed.

Lemma pow2_mod_8 i : 3 <= i -> 2 ^ i mod 8 = 0.
Proof.
  intros Hi. replace i with ((i - 3) + 3) by lia.
  rewrite Z.pow_add_r by lia. change (2 ^ 3) with 8. apply Z.mod_mul. lia.
Qed.

Lemma pattern_while b (j : nat) : forall fuel i x,
  (j < fuel)%nat -> 3 <= i ->
  i + Z.of_nat j = 3 + Z.of_nat lg_bytes ->
  replicated (2 ^ i) b x ->
  exists x',
    while fuel
      (fun '(i, x) => (Z.shiftl 1 i <? __WORDSIZE, (i, x)))
      (fun '(i, x) =>
         Done (i + 1, Z.lor x (to_word (Z.shiftl x (Z.shiftl 1 i)))))
      (i, x) = Done (3 + Z.of_nat lg_bytes, x') /\
    replicated __WORDSIZE b x'.
Proof.
  induction j as [|j IH]; intros fuel i x Hf Hi Hij Hx;
    (destruct fuel as [|fuel]; [lia|]); rewrite while_S; cbv beta iota;
    rewrite Z.shiftl_1_l.
  - replace i with (3 + Z.of_nat lg_bytes) in * by lia.
    fold __WORDSIZE in *. rewrite Z.ltb_irrefl. exists x. split; trivial.
  - assert (Hlt : 2 ^ (i + 1) <= __WORDSIZE).
    { unfold __WORDSIZE. apply Z.pow_le_mono_r; lia. }
    rewrite Z.pow_add_r, Z.pow_1_r in Hlt by lia.
    assert (Hpos : 0 < 2 ^ i) by (apply Z.pow_pos_nonneg; lia).
    destruct (Z.ltb_spec (2 ^ i) __WORDSIZE) as [_|Hge]; [|lia].
    simpl bind. apply IH; try lia.
    rewrite Z.pow_add_r, Z.pow_1_r, Z.mul_comm by lia.
    unfold to_word, size_modulus.
    apply replicated_double; try assumption; [|lia].
    apply pow2_mod_8. exact Hi.
Qed.

(** The doubling loop ends with [i = log2 __WORDSIZE] and a word made of
    copies of the byte it started from. *)
Lemma pattern_loop_spec b fuel :
  0 <= b < 256 -> (lg_bytes < fuel)%nat ->
  exists x,
    pattern_loop fuel (to_word b) = Done (3 + Z.of_nat lg_bytes, x) /\
    replicated __WORDSIZE b x.
Proof.
  intros Hb Hf. unfold pattern_loop.
  rewrite to_word_small by (pose proof size_modulus_ge; lia).
  apply (pattern_while b lg_bytes); try lia.
  change (2 ^ 3) with 8. apply replicated_byte. exact Hb.
Qed.

End Loops.

(** ** The fillers *)

Lemma filled_fills m dest sz b evs :
  writable m dest sz -> fills m (filled m dest sz b evs) dest sz b.
Proof.
  intros Hw. split; intros a Ha; rewrite peek_filled.
  - destruct Hw as [H0|[Hb Hl]]; [lia|].
    split_cmp; try reflexivity; lia.
  - split_cmp; try reflexivity; lia.
Qed.

Section Fillers.
Context {P : Platform}.

Lemma byte_loop_Z fuel x p sz m :
  0 <= sz < size_modulus -> (Z.to_nat sz < fuel)%nat -> writable m p sz ->
  byte_loop fuel x p sz m =
  Done (p + sz, size_modulus - 1,
        filled m p sz x (byte_stores p (Z.to_nat sz) x)).
Proof.
  intros Hsz Hf Hw. rewrite <- (Z2Nat.id sz) at 1 2 3 by lia.
  apply byte_loop_spec; rewrite ?Z2Nat.id by lia; try assumption; lia.
Qed.

Lemma word_loop_Z fuel (w : nat) x v p cnt m :
  (0 < w)%nat -> 0 <= cnt < size_modulus -> (Z.to_nat cnt < fuel)%nat ->
  word_lanes w x = replicate w v -> writable m p (Z.of_nat w * cnt) ->
  word_loop fuel w x p cnt m =
  Done (p + Z.of_nat w * cnt, size_modulus - 1,
        filled m p (Z.of_nat w * cnt) v
               (word_stores w p (Z.to_nat cnt) x)).
Proof.
  intros Hw0 Hc Hf Hx Hw. rewrite <- (Z2Nat.id cnt) at 1 2 3 by lia.
  apply word_loop_spec; rewrite ?Z2Nat.id by lia; try assumption; lia.
Qed.

End Fillers.

(** C6.  [bytewise_memset(dest, c, sz)] on [sz] bytes the caller owns, of
    any alignment and any length: it returns [dest]; its stores are exactly
    [sz] single bytes of value [c & 0xFF], at [dest], [dest + 1], ... in
    this order; afterwards each byte of [dest, dest + sz) holds [c & 0xFF]
    and every other byte is as before. *)
Theorem bytewise_memset_correct (P : Platform) fuel m dest c sz :
  0 <= sz < size_modulus -> writable m dest sz ->
  (Z.to_nat sz < fuel)%nat ->
  exists m',
    bytewise_memset fuel m dest c sz = Done (dest, m') /\
    trace m' = trace m ++ byte_stores dest (Z.to_nat sz) (Z.land c 255) /\
    fills m m' dest sz (Z.land c 255).
Proof.
  intros Hsz Hw Hf. unfold bytewise_memset.
  rewrite byte_loop_Z by assumption. simpl bind.
  eexists. split; [reflexivity|]. split; [reflexivity|].
  apply filled_fills. exact Hw.
Qed.

Lemma bytewise_memset_correct_witness :
  exists m',
    bytewise_memset (P := x86_64) 10 buf16 4097 321 3 = Done (4097, m') /\
    trace m' = trace buf16 ++ byte_stores 4097 (Z.to_nat 3) (Z.land 321 255) /\
    fills buf16 m' 4097 3 (Z.land 321 255).
Proof.
  apply (bytewise_memset_correct x86_64 10 buf16 4097 321 3).
  - vm_compute. split; [discriminate|reflexivity].
  - right. vm_compute. split; discriminate.
  - vm_compute. lia.
Defined.

(** C5.  The pattern word.  Starting from [c & 0xFF], both the two fixed
    steps [x |= x << 8; x |= x << 16] of the 32-bit fillers and the doubling
    loop of the generic fillers, at any word width [8 * 2^lg_bytes], end
    with a word all of whose byte lanes are [c & 0xFF]; the loop also ends
    with [i = log2 __WORDSIZE]. *)
Theorem pattern_word_lanes (P : Platform) (c : Z) (fuel : nat) :
  (lg_bytes < fuel)%nat ->
  (forall k : nat, (k < 4)%nat ->
     lane (pattern32 (to_uint32 (Z.land c 255))) k = Z.land c 255) /\
  (exists x,
     pattern_loop fuel (to_word (Z.land c 255))
       = Done (3 + Z.of_nat lg_bytes, x) /\
     forall k : nat, (k < sizeof_word)%nat -> lane x k = Z.land c 255).
Proof.
  intros Hf. pose proof (land_255_range c) as Hb. split.
  - intros k Hk. unfold lane.
    apply (lane_replicated 32); [exact Hb| |lia].
    apply replicated_pattern32. exact Hb.
  - destruct (pattern_loop_spec (Z.land c 255) fuel Hb Hf) as [x [Hx Hrep]].
    exists x. split; [exact Hx|]. intros k Hk. unfold lane.
    apply (lane_replicated __WORDSIZE); [exact Hb|exact Hrep|].
    rewrite WORDSIZE_bytes. lia.
Qed.

Lemma pattern_word_lanes_witness :
  (forall k : nat, (k < 4)%nat ->
     lane (pattern32 (to_uint32 (Z.land 321 255))) k = Z.land 321 255) /\
  (exists x,
     pattern_loop (P := x86_64) 10 (to_word (P := x86_64) (Z.land 321 255))
       = Done (3 + Z.of_nat (lg_bytes (Platform := x86_64)), x) /\
     forall k : nat, (k < sizeof_word (P := x86_64))%nat ->
       lane x k = Z.land 321 255).
Proof.
  apply (pattern_word_lanes x86_64 321 10). simpl. lia.
Defined.

(** C8.  Masking law: each of the five fillers does with [c] exactly what it
    does with [c & 0xFF], on every state, destination and length: the same
    outcome, so the same memory, the same returned pointer, and an error in
    one case exactly when in the other. *)
Theorem masking_law (P : Platform) fuel m dest c sz :
  bytewise_memset fuel m dest c sz
    = bytewise_memset fuel m dest (Z.land c 255) sz /\
  wordwise_32_memset fuel m dest c sz
    = wordwise_32_memset fuel m dest (Z.land c 255) sz /\
  wordwise_memset fuel m dest c sz
    = wordwise_memset fuel m dest (Z.land c 255) sz /\
  wordwise_32_unaligned_memset fuel m dest c sz
    = wordwise_32_unaligned_memset fuel m dest (Z.land c 255) sz /\
  wordwise_unaligned_memset fuel m dest c sz
    = wordwise_unaligned_memset fuel m dest (Z.land c 255) sz.
Proof.
  unfold bytewise_memset, wordwise_32_memset, wordwise_memset,
    wordwise_32_unaligned_memset, wordwise_unaligned_memset.
  rewrite !land_255_idem. repeat split; reflexivity.
Qed.

(** ** The prologue of the unaligned fillers *)

Lemma misaligned_test (g : nat) pp :
  (g <= 32)%nat -> Z.land (to_uint32 pp) (2 ^ Z.of_nat g - 1) = pp mod 2 ^ Z.of_nat g.
Proof.
  intros Hg. unfold to_uint32.
  replace (2 ^ Z.of_nat g - 1) with (Z.ones (Z.of_nat g))
    by (rewrite Z.ones_equiv; lia).
  rewrite Z.land_ones by lia. apply Z.mod_mod_divide.
  exists (2 ^ (32 - Z.of_nat g)). rewrite <- Z.pow_add_r by lia.
  f_equal. lia.
Qed.

Lemma to_uint32_mask (g : nat) :
  (g <= 32)%nat -> to_uint32 (2 ^ Z.of_nat g - 1) = 2 ^ Z.of_nat g - 1.
Proof.
  intros Hg. unfold to_uint32. apply Z.mod_small.
  assert (0 < 2 ^ Z.of_nat g) by (apply Z.pow_pos_nonneg; lia).
  assert (2 ^ Z.of_nat g <= 2 ^ 32) by (apply Z.pow_le_mono_r; lia).
  lia.
Qed.

Lemma mod_succ_small a w :
  0 < w -> a mod w + 1 < w -> (a + 1) mod w = a mod w + 1.
Proof.
  intros Hw Hlt. pose proof (Z.mod_pos_bound a w Hw).
  symmetry. apply Z.mod_unique with (q := a / w); [lia|].
  pose proof (Z.div_mod a w). lia.
Qed.

Lemma mod_succ_wrap a w :
  0 < w -> a mod w + 1 = w -> (a + 1) mod w = 0.
Proof.
  intros Hw Heq. symmetry. apply Z.mod_unique with (q := a / w + 1); [lia|].
  pose proof (Z.div_mod a w). lia.
Qed.

Lemma land_ones_small a n : 0 <= n -> 0 <= a < 2 ^ n -> Z.land (2 ^ n - 1) a = a.
Proof.
  intros Hn Ha. replace (2 ^ n - 1) with (Z.ones n)
    by (rewrite Z.ones_equiv; lia).
  rewrite Z.land_comm, Z.land_ones by lia. apply Z.mod_small. exact Ha.
Qed.

Lemma shiftr_ones n k :
  0 <= k <= n -> Z.shiftr (2 ^ n - 1) k = 2 ^ (n - k) - 1.
Proof.
  intros Hk. rewrite Z.shiftr_div_pow2 by lia.
  assert (H2 : 2 ^ n = 2 ^ k * 2 ^ (n - k)).
  { rewrite <- Z.pow_add_r by lia. f_equal. lia. }
  assert (0 < 2 ^ k) by (apply Z.pow_pos_nonneg; lia).
  symmetry. apply Z.div_unique with (r := 2 ^ k - 1); lia.
Qed.

Section Prologue.
Context {P : Platform}.
Variables (g : nat) (mask xx : Z).
Hypothesis mask_tests_alignment :
  forall q, Z.land (to_uint32 q) mask = q mod 2 ^ Z.of_nat g.

Let W : Z := 2 ^ Z.of_nat g.

Lemma W_pos : 0 < W.
Proof. apply Z.pow_pos_nonneg; lia. Qed.

(** The request ends before the pointer is aligned: the loop leaves through
    [sz--] at [sz = 0], and the counter wraps. *)
Lemma prologue_short (n : nat) : forall fuel pp m,
  (n < fuel)%nat -> pp mod W <> 0 -> pp mod W + Z.of_nat n < W ->
  Z.of_nat n < size_modulus -> writable m pp (Z.of_nat n) ->
  prologue fuel mask xx pp (Z.of_nat n) m =
  Done (pp + Z.of_nat n, size_modulus - 1,
        filled m pp (Z.of_nat n) xx (byte_stores pp n xx)).
Proof.
  pose proof W_pos as HW.
  induction n as [|n IH]; intros fuel pp m Hf Hmis Hlt Hn Hw;
    (destruct fuel as [|fuel]; [lia|]); rewrite prologue_S;
    rewrite mask_tests_alignment; fold W;
    (destruct (Z.eqb_spec (pp mod W) 0) as [H0|_]; [contradiction|]).
  - change (Z.of_nat 0) with 0. change (0 =? 0) with true. cbv iota.
    rewrite to_word_minus_1, Z.add_0_r, filled_none. reflexivity.
  - destruct (Z.eqb_spec (Z.of_nat (S n)) 0) as [H0|_]; [lia|].
    destruct Hw as [H0|[Hb Hl]]; [lia|].
    pose proof (Z.mod_pos_bound pp W HW).
    rewrite store_byte_ok by lia. simpl bind.
    rewrite to_word_small by lia.
    replace (Z.of_nat (S n) - 1) with (Z.of_nat n) by lia.
    rewrite IH; try lia.
    + rewrite filled_filled by lia. rewrite byte_stores_S.
      replace (1 + Z.of_nat n) with (Z.of_nat (S n)) by lia.
      replace (pp + 1 + Z.of_nat n) with (pp + Z.of_nat (S n)) by lia.
      reflexivity.
    + rewrite mod_succ_small; lia.
    + rewrite mod_succ_small; lia.
    + right. rewrite limit_filled. simpl. lia.
Qed.

(** The request reaches the next boundary, [d] bytes ahead: the loop leaves
    through the alignment test, and [sz] is [d] less. *)
Lemma prologue_reach (d : nat) : forall fuel pp sz m,
  (d < fuel)%nat ->
  (d = 0%nat /\ pp mod W = 0) \/ (pp mod W <> 0 /\ pp mod W + Z.of_nat d = W) ->
  Z.of_nat d <= sz < size_modulus -> writable m pp (Z.of_nat d) ->
  prologue fuel mask xx pp sz m =
  Done (pp + Z.of_nat d, sz - Z.of_nat d,
        filled m pp (Z.of_nat d) xx (byte_stores pp d xx)).
Proof.
  pose proof W_pos as HW.
  induction d as [|d IH]; intros fuel pp sz m Hf Hal Hsz Hw;
    (destruct fuel as [|fuel]; [lia|]); rewrite prologue_S;
    rewrite mask_tests_alignment; fold W.
  - destruct Hal as [[_ H0]|[_ Hd]].
    + rewrite H0. change (0 =? 0) with true. cbv iota.
      change (Z.of_nat 0) with 0.
      rewrite Z.add_0_r, Z.sub_0_r, filled_none. reflexivity.
    + pose proof (Z.mod_pos_bound pp W HW). lia.
  - destruct Hal as [[Hd _]|[Hmis Hd]]; [lia|].
    destruct (Z.eqb_spec (pp mod W) 0) as [H0|_]; [contradiction|].
    destruct (Z.eqb_spec sz 0) as [H0|_]; [lia|].
    destruct Hw as [H0|[Hb Hl]]; [lia|].
    rewrite store_byte_ok by lia. simpl bind.
    rewrite to_word_small by lia.
    rewrite IH; try lia.
    + rewrite filled_filled by lia. rewrite byte_stores_S.
      replace (1 + Z.of_nat d) with (Z.of_nat (S d)) by lia.
      replace (pp + 1 + Z.of_nat d) with (pp + Z.of_nat (S d)) by lia.
      replace (sz - 1 - Z.of_nat d) with (sz - Z.of_nat (S d)) by lia.
      reflexivity.
    + destruct d as [|d].
      * left. split; [reflexivity|]. apply mod_succ_wrap; lia.
      * right. pose proof (Z.mod_pos_bound pp W HW).
        rewrite mod_succ_small by lia. lia.
    + right. rewrite limit_filled. simpl. lia.
Qed.

End Prologue.

Section Unaligned.
Context {P : Platform}.

Lemma bytes_per_word_eq :
  Z.shiftl 1 (3 + Z.of_nat lg_bytes - 3) = Z.of_nat sizeof_word.
Proof.
  replace (3 + Z.of_nat lg_bytes - 3) with (Z.of_nat lg_bytes) by lia.
  rewrite Z.shiftl_1_l, sizeof_word_Z. reflexivity.
Qed.

Lemma shift_count_eq : 3 + Z.of_nat lg_bytes - 3 = Z.of_nat lg_bytes.
Proof. lia. Qed.

Lemma lg_bytes_lt_WORDSIZE : Z.of_nat lg_bytes + 3 <= __WORDSIZE.
Proof.
  unfold __WORDSIZE.
  pose proof (Z.pow_gt_lin_r 2 (3 + Z.of_nat lg_bytes)). lia.
Qed.

Lemma sizeof_word_lt_modulus : Z.of_nat sizeof_word < size_modulus.
Proof.
  rewrite sizeof_word_Z. unfold size_modulus.
  apply Z.pow_lt_mono_r; pose proof lg_bytes_lt_WORDSIZE; lia.
Qed.

Lemma mask32_tests q : Z.land (to_uint32 q) 3 = q mod 2 ^ Z.of_nat 2.
Proof. apply (misaligned_test 2 q). lia. Qed.

Lemma mask_word_tests q :
  (lg_bytes <= 27)%nat ->
  Z.land (to_uint32 q) (to_uint32 (Z.of_nat sizeof_word - 1))
  = q mod 2 ^ Z.of_nat lg_bytes.
Proof.
  intros Hg. rewrite sizeof_word_Z, to_uint32_mask by lia.
  apply misaligned_test. lia.
Qed.

Lemma tail_mask_word : to_word (Z.of_nat sizeof_word - 1) = Z.of_nat sizeof_word - 1.
Proof.
  apply to_word_small. pose proof sizeof_word_pos.
  pose proof sizeof_word_lt_modulus. lia.
Qed.

End Unaligned.

Section ShortRequest.
Context {P : Platform}.
Variables (fuel : nat) (m : machine) (dest c sz : Z).
Hypothesis fuel_pattern : (lg_bytes < fuel)%nat.
Hypothesis fuel_bytes : (Z.to_nat sz < fuel)%nat.
Hypothesis sz_nonneg : 0 <= sz.
Hypothesis owned : writable m dest sz.

Let xx : Z := Z.land c 255.
Let m1 : machine := filled m dest sz xx (byte_stores dest (Z.to_nat sz) xx).
Let W : Z := Z.of_nat sizeof_word.

Lemma short32_unfolds :
  dest mod 4 <> 0 -> sz < 4 - dest mod 4 ->
  prologue fuel 3 xx dest sz m = Done (dest + sz, size_modulus - 1, m1) /\
  Z.land (size_modulus - 1) 3 = 3 /\
  Z.shiftr (size_modulus - 1) 2 = 2 ^ (__WORDSIZE - 2) - 1 /\
  0 < 2 ^ (__WORDSIZE - 2) - 1 /\
  wordwise_32_unaligned_memset fuel m dest c sz =
    (let* (p, _, m2) :=
       word_loop fuel 4 (pattern32 (to_uint32 xx)) (dest + sz)
                 (2 ^ (__WORDSIZE - 2) - 1) m1 in
     let* (_, _, m3) := byte_loop fuel xx p 3 m2 in
     Done (dest, m3)).
Proof.
  pose proof WORDSIZE_ge as HWS. pose proof size_modulus_ge as HM.
  intros Hmis Hlt.
  pose proof (Z.mod_pos_bound dest 4 ltac:(lia)) as Hmod.
  assert (Hpro : prologue fuel 3 xx dest sz m
                 = Done (dest + sz, size_modulus - 1, m1)).
  { subst m1. rewrite <- (Z2Nat.id sz) at 1 2 3 by lia.
    apply (prologue_short 2 3 xx mask32_tests);
      rewrite ?Z2Nat.id by lia; change (2 ^ Z.of_nat 2) with 4;
      try assumption; lia. }
  assert (Htail : Z.land (size_modulus - 1) 3 = 3).
  { apply land_ones_small; [lia|fold size_modulus; lia]. }
  assert (Hcnt : Z.shiftr (size_modulus - 1) 2 = 2 ^ (__WORDSIZE - 2) - 1).
  { apply shiftr_ones. lia. }
  assert (Hnz : 0 < 2 ^ (__WORDSIZE - 2) - 1).
  { assert (2 ^ 1 <= 2 ^ (__WORDSIZE - 2)) by (apply Z.pow_le_mono_r; lia).
    simpl in *. lia. }
  repeat (split; [assumption|]).
  unfold wordwise_32_unaligned_memset. fold xx. rewrite Hpro.
  simpl bind. rewrite Htail, Hcnt. reflexivity.
Qed.

Lemma short_word_unfolds :
  (lg_bytes <= 27)%nat ->
  dest mod W <> 0 -> sz < W - dest mod W ->
  exists x,
    pattern_loop fuel (to_word xx) = Done (3 + Z.of_nat lg_bytes, x) /\
    prologue fuel (to_uint32 (W - 1)) xx dest sz m
      = Done (dest + sz, size_modulus - 1, m1) /\
    Z.land (size_modulus - 1) (to_word (W - 1)) = W - 1 /\
    Z.shiftr (size_modulus - 1) (Z.of_nat lg_bytes)
      = 2 ^ (__WORDSIZE - Z.of_nat lg_bytes) - 1 /\
    0 < 2 ^ (__WORDSIZE - Z.of_nat lg_bytes) - 1 /\
    wordwise_unaligned_memset fuel m dest c sz =
      (let* (p, _, m2) :=
         word_loop fuel sizeof_word x (dest + sz)
                   (2 ^ (__WORDSIZE - Z.of_nat lg_bytes) - 1) m1 in
       let* (_, _, m3) := byte_loop fuel xx p (W - 1) m2 in
       Done (dest, m3)).
Proof.
  pose proof WORDSIZE_ge as HWS. pose proof size_modulus_ge as HM.
  pose proof lg_bytes_lt_WORDSIZE as Hlg.
  pose proof sizeof_word_lt_modulus as HWM.
  pose proof sizeof_word_pos as HWpos.
  intros Hg Hmis Hlt.
  destruct (pattern_loop_spec xx fuel (land_255_range c) fuel_pattern)
    as [x [Hx _]].
  exists x.
  assert (HWeq : W = 2 ^ Z.of_nat lg_bytes) by apply sizeof_word_Z.
  pose proof (Z.mod_pos_bound dest W HWpos) as Hmod.
  assert (Hpro : prologue fuel (to_uint32 (W - 1)) xx dest sz m
                 = Done (dest + sz, size_modulus - 1, m1)).
  { subst m1. rewrite <- (Z2Nat.id sz) at 1 2 3 by lia.
    apply (prologue_short lg_bytes _ xx (fun q => mask_word_tests q Hg));
      rewrite ?Z2Nat.id by lia; rewrite <- ?HWeq; try assumption; lia. }
  assert (Htail : Z.land (size_modulus - 1) (to_word (W - 1)) = W - 1).
  { unfold W. rewrite tail_mask_word.
    apply land_ones_small; [lia|fold size_modulus; lia]. }
  assert (Hcnt : Z.shiftr (size_modulus - 1) (Z.of_nat lg_bytes)
                 = 2 ^ (__WORDSIZE - Z.of_nat lg_bytes) - 1).
  { apply shiftr_ones. lia. }
  assert (Hnz : 0 < 2 ^ (__WORDSIZE - Z.of_nat lg_bytes) - 1).
  { assert (2 ^ 1 <= 2 ^ (__WORDSIZE - Z.of_nat lg_bytes))
      by (apply Z.pow_le_mono_r; lia).
    simpl in *. lia. }
  repeat (split; [assumption|]).
  unfold wordwise_unaligned_memset. fold xx. rewrite Hx. simpl bind.
  rewrite bytes_per_word_eq, shift_count_eq. fold W. rewrite Hpro.
  simpl bind. rewrite Htail, Hcnt. reflexivity.
Qed.

End ShortRequest.

(** C10.  In both unaligned fillers, a request that ends while the pointer
    is still misaligned ([dest] misaligned and [sz] less than the distance
    to the next boundary, [sz = 0] included) leaves the prologue through
    [sz--] at [sz = 0]: the [sz] bytes are stored and the counter is
    [2^w - 1], [w = __WORDSIZE].  From there [tail] is [W - 1] and the word
    loop is entered with the count [(2^w - 1) >> log2 W = 2^(w - log2 W) - 1],
    which is not [0]. *)
Theorem prologue_wraps_size (P : Platform) fuel m dest c sz :
  (lg_bytes <= 27)%nat -> (lg_bytes < fuel)%nat ->
  (Z.to_nat sz < fuel)%nat -> 0 <= sz -> writable m dest sz ->
  let xx := Z.land c 255 in
  let m1 := filled m dest sz xx (byte_stores dest (Z.to_nat sz) xx) in
  let W := Z.of_nat sizeof_word in
  (dest mod 4 <> 0 -> sz < 4 - dest mod 4 ->
     prologue fuel 3 xx dest sz m = Done (dest + sz, size_modulus - 1, m1) /\
     Z.land (size_modulus - 1) 3 = 3 /\
     Z.shiftr (size_modulus - 1) 2 = 2 ^ (__WORDSIZE - 2) - 1 /\
     0 < 2 ^ (__WORDSIZE - 2) - 1 /\
     wordwise_32_unaligned_memset fuel m dest c sz =
       (let* (p, _, m2) :=
          word_loop fuel 4 (pattern32 (to_uint32 xx)) (dest + sz)
                    (2 ^ (__WORDSIZE - 2) - 1) m1 in
        let* (_, _, m3) := byte_loop fuel xx p 3 m2 in
        Done (dest, m3))) /\
  (dest mod W <> 0 -> sz < W - dest mod W ->
     exists x,
       pattern_loop fuel (to_word xx) = Done (3 + Z.of_nat lg_bytes, x) /\
       prologue fuel (to_uint32 (W - 1)) xx dest sz m
         = Done (dest + sz, size_modulus - 1, m1) /\
       Z.land (size_modulus - 1) (to_word (W - 1)) = W - 1 /\
       Z.shiftr (size_modulus - 1) (Z.of_nat lg_bytes)
         = 2 ^ (__WORDSIZE - Z.of_nat lg_bytes) - 1 /\
       0 < 2 ^ (__WORDSIZE - Z.of_nat lg_bytes) - 1 /\
       wordwise_unaligned_memset fuel m dest c sz =
         (let* (p, _, m2) :=
            word_loop fuel sizeof_word x (dest + sz)
                      (2 ^ (__WORDSIZE - Z.of_nat lg_bytes) - 1) m1 in
          let* (_, _, m3) := byte_loop fuel xx p (W - 1) m2 in
          Done (dest, m3))).
Proof.
  intros Hg Hfp Hf Hsz Hw xx m1 W. split.
  - intros Hmis Hlt. apply short32_unfolds; assumption.
  - intros Hmis Hlt. apply short_word_unfolds; assumption.
Qed.

Lemma prologue_wraps_size_witness :
  prologue (P := x86_64) 10 3 (Z.land 65 255) 4097 2 buf16
  = Done (4097 + 2, size_modulus (P := x86_64) - 1,
          filled buf16 4097 2 (Z.land 65 255)
                 (byte_stores 4097 (Z.to_nat 2) (Z.land 65 255))).
Proof.
  refine (proj1 (proj1 (prologue_wraps_size x86_64 10 buf16 4097 65 2
                          _ _ _ _ _) _ _)).
  - simpl. lia.
  - simpl. lia.
  - simpl. lia.
  - lia.
  - right. vm_compute. split; discriminate.
  - vm_compute. discriminate.
  - vm_compute. reflexivity.
Defined.

(** ** More fuel changes nothing *)

Lemma bind_Done {A B} (o : outcome A) (k : A -> outcome B) r :
  bind o k = Done r -> exists a, o = Done a /\ k a = Done r.
Proof.
  destruct o as [a| | |]; simpl; intros H; try discriminate.
  exists a. split; [reflexivity|exact H].
Qed.

Lemma while_mono {S : Type} cond body : forall fuel fuel' (s r : S),
  (fuel <= fuel')%nat ->
  while fuel cond body s = Done r -> while fuel' cond body s = Done r.
Proof.
  induction fuel as [|fuel IH]; intros fuel' s r Hle H; [discriminate|].
  destruct fuel' as [|fuel']; [lia|].
  rewrite while_S in *. destruct (cond s) as [b s1].
  destruct b; [|exact H].
  apply bind_Done in H. destruct H as [s2 [Hb Hw]].
  rewrite Hb. simpl. apply (IH fuel'); [lia|exact Hw].
Qed.

Section Monotone.
Context {P : Platform}.

Ltac step_mono H :=
  apply bind_Done in H; destruct H as [? [Hstep H]];
  eapply while_mono in Hstep; [|eassumption];
  rewrite Hstep; clear Hstep; simpl bind; simpl in H.

Lemma wordwise_32_unaligned_memset_mono fuel fuel' m s c sz r :
  (fuel <= fuel')%nat ->
  wordwise_32_unaligned_memset fuel m s c sz = Done r ->
  wordwise_32_unaligned_memset fuel' m s c sz = Done r.
Proof.
  intros Hle H.
  unfold wordwise_32_unaligned_memset, prologue, word_loop, byte_loop in *.
  step_mono H. destruct x as [[pp sz1] m1].
  step_mono H. destruct x as [[p sz2] m2].
  step_mono H. destruct x as [[pp3 tl] m3].
  exact H.
Qed.

Lemma wordwise_unaligned_memset_mono fuel fuel' m s c sz r :
  (fuel <= fuel')%nat ->
  wordwise_unaligned_memset fuel m s c sz = Done r ->
  wordwise_unaligned_memset fuel' m s c sz = Done r.
Proof.
  intros Hle H.
  unfold wordwise_unaligned_memset, pattern_loop, prologue, word_loop,
    byte_loop in *.
  step_mono H. destruct x as [i x].
  step_mono H. destruct x0 as [[pp sz1] m1].
  step_mono H. destruct x0 as [[p sz2] m2].
  step_mono H. destruct x0 as [[pp3 tl] m3].
  exact H.
Qed.

(** A word loop asked for more words than the object has room for past
    [p] does not come back. *)
Lemma word_loop_runs_away (w : nat) x : (0 < w)%nat ->
  forall fuel p cnt m r,
  0 < cnt < size_modulus -> limit m - p < Z.of_nat w * cnt ->
  word_loop fuel w x p cnt m <> Done r.
Proof.
  intros Hw0. induction fuel as [|fuel IH]; intros p cnt m r Hc Hroom;
    [discriminate|].
  rewrite word_loop_S.
  destruct (Z.eqb_spec cnt 0) as [H0|_]; [lia|].
  unfold store_word at 1.
  destruct ((base m <=? p) && (p + Z.of_nat w <=? limit m)) eqn:Hin;
    [|discriminate].
  apply andb_true_iff in Hin. destruct Hin as [H1%Z.leb_le H2%Z.leb_le].
  simpl bind. rewrite to_word_small by lia.
  apply IH.
  - nia.
  - unfold limit in *; simpl. rewrite length_inserts. nia.
Qed.

End Monotone.

(** ** A request that ends before the first boundary *)

Section RunAway.
Context {P : Platform}.
Variables (m : machine) (dest c sz : Z).
Hypothesis sz_nonneg : 0 <= sz.
Hypothesis dest_nonneg : 0 <= dest.
Hypothesis owned : writable m dest sz.

Lemma modulus_split k :
  0 <= k <= __WORDSIZE -> 2 ^ k * 2 ^ (__WORDSIZE - k) = size_modulus.
Proof.
  intros Hk. unfold size_modulus. rewrite <- Z.pow_add_r by lia.
  f_equal. lia.
Qed.

(** Whatever the fuel, [wordwise_32_unaligned_memset] does not return from
    such a request: the word loop leaves the object first. *)
Lemma short32_never_returns :
  dest mod 4 <> 0 -> sz < 4 - dest mod 4 -> limit m + 4 <= size_modulus ->
  forall fuel r, wordwise_32_unaligned_memset fuel m dest c sz <> Done r.
Proof.
  intros Hmis Hlt Hroom fuel r H.
  pose proof WORDSIZE_ge as HWS.
  set (N := Nat.max fuel (S (Nat.max (Z.to_nat sz) lg_bytes))).
  apply (wordwise_32_unaligned_memset_mono fuel N) in H; [|lia].
  destruct (short32_unfolds N m dest c sz) as (_ & _ & _ & Hnz & Heq);
    try assumption; try lia.
  rewrite Heq in H. apply bind_Done in H.
  destruct H as [[[p s1] m2] [Hloop _]]. revert Hloop.
  assert (Hsplit : 4 * 2 ^ (__WORDSIZE - 2) = size_modulus)
    by (apply (modulus_split 2); lia).
  assert (dest <> 0).
  { intros H0. apply Hmis. rewrite H0. reflexivity. }
  apply word_loop_runs_away; [lia|lia|].
  rewrite limit_filled. lia.
Qed.

(** The same for [wordwise_unaligned_memset]. *)
Lemma short_word_never_returns :
  (lg_bytes <= 27)%nat ->
  dest mod Z.of_nat sizeof_word <> 0 ->
  sz < Z.of_nat sizeof_word - dest mod Z.of_nat sizeof_word ->
  limit m + Z.of_nat sizeof_word <= size_modulus ->
  forall fuel r, wordwise_unaligned_memset fuel m dest c sz <> Done r.
Proof.
  intros Hg Hmis Hlt Hroom fuel r H.
  pose proof lg_bytes_lt_WORDSIZE as Hlg.
  pose proof sizeof_word_pos as HWpos.
  set (N := Nat.max fuel (S (Nat.max (Z.to_nat sz) lg_bytes))).
  apply (wordwise_unaligned_memset_mono fuel N) in H; [|lia].
  destruct (short_word_unfolds N m dest c sz)
    as (x & _ & _ & _ & _ & Hnz & Heq); try assumption; try lia.
  rewrite Heq in H. apply bind_Done in H.
  destruct H as [[[p s1] m2] [Hloop _]]. revert Hloop.
  assert (Hsplit : 2 ^ Z.of_nat lg_bytes * 2 ^ (__WORDSIZE - Z.of_nat lg_bytes)
                   = size_modulus) by (apply modulus_split; lia).
  rewrite <- sizeof_word_Z in Hsplit.
  assert (dest <> 0).
  { intros H0. apply Hmis. rewrite H0. apply Z.mod_0_l. lia. }
  apply word_loop_runs_away; [lia|nia|].
  rewrite limit_filled. nia.
Qed.

End RunAway.

(** ** The unaligned fillers on a request shorter than the way to the next
    boundary

    The object is [buf16]: sixteen bytes at 4096, a word boundary for every
    word size used here. *)

Ltac never_returns lemma :=
  intros fuel r; apply lemma;
  solve [ lia
        | left; reflexivity
        | right; vm_compute; split; discriminate
        | vm_compute; discriminate
        | vm_compute; reflexivity
        | simpl; lia ].

(** C1 (fails for a short request).  Called with a misaligned [dest] and
    [sz = 0], neither unaligned filler returns [dest]: the prologue leaves
    with [sz = 2^64 - 1], the word loop stores at [dest], [dest + W], ...
    until it leaves the object, and no amount of fuel brings the call to
    an end. *)
Theorem unaligned_fill_empty_request_faults :
  wordwise_32_unaligned_memset (P := x86_64) 100 buf16 4097 65 0
  = Fault {| base := 4096;
             cells := [0; 65; 65; 65; 65; 65; 65; 65; 65; 65; 65; 65; 65;
                       0; 0; 0];
             trace := [SWord 4 4097 1094795585; SWord 4 4101 1094795585;
                       SWord 4 4105 1094795585] |} /\
  wordwise_unaligned_memset (P := x86_64) 100 buf16 4097 65 0
  = Fault {| base := 4096;
             cells := [0; 65; 65; 65; 65; 65; 65; 65; 65; 0; 0; 0; 0; 0; 0;
                       0];
             trace := [SWord 8 4097 4702111234474983745] |} /\
  (forall fuel r,
     wordwise_32_unaligned_memset (P := x86_64) fuel buf16 4097 65 0
     <> Done r) /\
  (forall fuel r,
     wordwise_unaligned_memset (P := x86_64) fuel buf16 4097 65 0
     <> Done r).
Proof.
  split; [vm_compute; reflexivity|].
  split; [vm_compute; reflexivity|].
  split.
  - never_returns (@short32_never_returns x86_64).
  - never_returns (@short_word_never_returns x86_64).
Qed.

(** C2 (fails).  With [dest = 4097] and [sz = 2], less than the 3 bytes to
    the next boundary, the prologue stores its 2 bytes and the function
    goes on: the word loop stores whole words from [dest + 2] on, past the
    request, until it leaves the object. *)
Theorem short_request_reaches_word_loop :
  wordwise_32_unaligned_memset (P := x86_64) 100 buf16 4097 65 2
  = Fault {| base := 4096;
             cells := [0; 65; 65; 65; 65; 65; 65; 65; 65; 65; 65; 65; 65;
                       65; 65; 0];
             trace := [SByte 4097 65; SByte 4098 65;
                       SWord 4 4099 1094795585; SWord 4 4103 1094795585;
                       SWord 4 4107 1094795585] |} /\
  wordwise_unaligned_memset (P := x86_64) 100 buf16 4097 65 2
  = Fault {| base := 4096;
             cells := [0; 65; 65; 65; 65; 65; 65; 65; 65; 65; 65; 0; 0; 0;
                       0; 0];
             trace := [SByte 4097 65; SByte 4098 65;
                       SWord 8 4099 4702111234474983745] |}.
Proof. split; vm_compute; reflexivity. Qed.

(** C4 (fails for the unaligned fillers).  On [(dest, c, sz) = (4098, 65, 1)]
    [bytewise_memset] stores one byte and returns [dest]; both unaligned
    fillers store words past the request and never return. *)
Theorem unaligned_fillers_differ_from_bytewise :
  bytewise_memset (P := i386) 100 buf16 4098 65 1
  = Done (4098,
          {| base := 4096;
             cells := [0; 0; 65; 0; 0; 0; 0; 0; 0; 0; 0; 0; 0; 0; 0; 0];
             trace := [SByte 4098 65] |}) /\
  (forall fuel r,
     wordwise_32_unaligned_memset (P := i386) fuel buf16 4098 65 1
     <> Done r) /\
  (forall fuel r,
     wordwise_unaligned_memset (P := i386) fuel buf16 4098 65 1 <> Done r).
Proof.
  split; [vm_compute; reflexivity|]. split.
  - never_returns (@short32_never_returns i386).
  - never_returns (@short_word_never_returns i386).
Qed.

(** C7 (fails for the unaligned fillers).  With [sz = 0] and a misaligned
    [dest], [bytewise_memset] stores nothing and returns [dest], but
    [wordwise_32_unaligned_memset] and [wordwise_unaligned_memset] store
    words from [dest] on: memory changes and the call does not return. *)
Theorem zero_length_is_not_a_no_op :
  bytewise_memset (P := i386) 100 buf16 4097 65 0 = Done (4097, buf16) /\
  (exists m',
     wordwise_32_unaligned_memset (P := i386) 100 buf16 4097 65 0
     = Fault m' /\
     trace m' = [SWord 4 4097 1094795585; SWord 4 4101 1094795585;
                 SWord 4 4105 1094795585] /\
     peek buf16 4097 = Some 0 /\ peek m' 4097 = Some 65) /\
  (exists m',
     wordwise_unaligned_memset (P := i386) 100 buf16 4097 65 0
     = Fault m' /\
     trace m' = [SWord 4 4097 1094795585; SWord 4 4101 1094795585;
                 SWord 4 4105 1094795585] /\
     peek buf16 4097 = Some 0 /\ peek m' 4097 = Some 65).
Proof.
  split; [vm_compute; reflexivity|].
  split; eexists; (split; [vm_compute; reflexivity|]);
    repeat split; vm_compute; reflexivity.
Qed.

(** C9 (fails for a short request).  With [W = 4],
    [wordwise_unaligned_memset(buffer + 2, 0x41, 1)] changes the bytes that
    follow the one-byte region: [buffer[3]], the guard byte right after it,
    was [0] and is [0x41] when the word loop leaves the object. *)
Theorem short_request_overwrites_guard_byte :
  exists m',
    wordwise_unaligned_memset (P := i386) 100 buf16 (4096 + 2) 65 1
    = Fault m' /\
    peek buf16 (4096 + 3) = Some 0 /\
    peek m' (4096 + 3) = Some 65 /\
    trace m' = [SByte 4098 65; SWord 4 4099 1094795585;
                SWord 4 4103 1094795585; SWord 4 4107 1094795585].
Proof.
  eexists. split; [vm_compute; reflexivity|].
  repeat split; vm_compute; reflexivity.
Qed.

(** ** The self test *)

Lemma while_ret_S {S R : Type} fuel cond body (s : S) :
  while_ret (R := R) (Datatypes.S fuel) cond body s =
  let (b, s1) := cond s in
  if b then
    let* r := body s1 in
    match r with
    | Next s2 => while_ret fuel cond body s2
    | Return v => Done (Return v)
    end
  else Done (Next s1).
Proof. reflexivity. Qed.

Section Check.
Context {P : Platform}.

Lemma to_char_signed set :
  char_signed = true -> -128 <= set <= 127 ->
  to_char (Z.land set 255) = set.
Proof.
  intros Hs Hr. unfold to_char. rewrite Hs.
  change 255 with (Z.ones 8). rewrite Z.land_ones by lia.
  change (2 ^ 8) with 256.
  rewrite Z.add_mod_idemp_l by lia.
  rewrite Z.mod_small by lia. lia.
Qed.

(** The scan [for (i = ...; i < lim; ++i) if (buffer[i] != set) return i + 1;]
    over bytes that all hold [set] runs to [lim]. *)
Lemma scan_clean fuel m b set lim (n : nat) : forall i,
  (n < fuel)%nat -> i + Z.of_nat n = lim ->
  (forall j, i <= j < lim ->
     exists v, peek m (b + j) = Some v /\ to_char v = set) ->
  while_ret (R := Z) fuel
    (fun i => (i <? lim, i))
    (fun i =>
       let* v := load_byte m (b + i) in
       if negb (to_char v =? set) then Done (Return (i + 1))
       else Done (Next (i + 1)))
    i = Done (Next lim).
Proof.
  revert fuel. induction n as [|n IH]; intros fuel i Hf Hi Hall;
    (destruct fuel as [|fuel]; [lia|]); rewrite while_ret_S.
  - destruct (Z.ltb_spec i lim) as [Hlt|_]; [lia|].
    f_equal. f_equal. lia.
  - destruct (Z.ltb_spec i lim) as [_|Hge]; [|lia].
    destruct (Hall i ltac:(lia)) as [v [Hv Hc]].
    unfold load_byte. rewrite Hv. simpl bind. rewrite Hc, Z.eqb_refl.
    simpl negb. cbv iota. apply IH; [lia|lia|].
    intros j Hj. apply Hall. lia.
Qed.

(** The scan stops at the first byte that differs from [set], with that
    index plus one. *)
Lemma scan_mismatch fuel m b set lim (n : nat) : forall i v,
  (n < fuel)%nat ->
  (forall j, i <= j < i + Z.of_nat n ->
     exists v, peek m (b + j) = Some v /\ to_char v = set) ->
  i + Z.of_nat n < lim ->
  peek m (b + (i + Z.of_nat n)) = Some v -> to_char v <> set ->
  while_ret (R := Z) fuel
    (fun i => (i <? lim, i))
    (fun i =>
       let* v := load_byte m (b + i) in
       if negb (to_char v =? set) then Done (Return (i + 1))
       else Done (Next (i + 1)))
    i = Done (Return (i + Z.of_nat n + 1)).
Proof.
  revert fuel. induction n as [|n IH]; intros fuel i v Hf Hall Hlim Hv Hne;
    (destruct fuel as [|fuel]; [lia|]); rewrite while_ret_S;
    (destruct (Z.ltb_spec i lim) as [_|Hge]; [|lia]).
  - rewrite Z.add_0_r in *. unfold load_byte. rewrite Hv. simpl bind.
    destruct (Z.eqb_spec (to_char v) set) as [He|_]; [contradiction|].
    reflexivity.
  - destruct (Hall i ltac:(lia)) as [v0 [Hv0 Hc]].
    unfold load_byte. rewrite Hv0. simpl bind. rewrite Hc, Z.eqb_refl.
    simpl negb. cbv iota.
    replace (i + Z.of_nat (S n) + 1) with (i + 1 + Z.of_nat n + 1) by lia.
    apply (IH fuel (i + 1) v); try lia.
    + intros j Hj. apply Hall. lia.
    + replace (i + 1 + Z.of_nat n) with (i + Z.of_nat (S n)) by lia.
      exact Hv.
Qed.

End Check.

Section CheckSigned.
Context {P : Platform}.
Variables (f : filler) (fuel : nat) (u buffer : Z).
Hypothesis signed : char_signed = true.
Hypothesis offset : 0 <= u <= BUFFER_LEN - 2 * u.
Hypothesis fuel_scan : (Z.to_nat (BUFFER_LEN - 2 * u - u) < fuel)%nat.
Hypothesis good_low :
  forall set, 0 <= set <= 127 -> fills_buffer f fuel u set.

(** The loop of [check_memset] over [set]. *)
Let sets (ofuel : nat) (set : Z) (m : machine)
  : outcome (flow (Z * machine) Z) :=
  while_ret ofuel
    (fun '(set, m) => (to_uint32 set <=? 255, (set, m)))
    (fun '(set, m) =>
       let* (_, m) :=
         f fuel m (buffer + u) set (BUFFER_LEN - 2 * u) in
       let* r :=
         while_ret fuel
           (fun i => (i <? BUFFER_LEN - 2 * u, i))
           (fun i =>
              let* v := load_byte m (buffer + i) in
              if negb (to_char v =? set) then Done (Return (i + 1))
              else Done (Next (i + 1)))
           u in
       match r with
       | Return v => Done (Return v)
       | Next _ => Done (Next (to_char (set + 1), m))
       end)
    (set, m).

(** With a signed [char], [++set] takes [set] from 127 to -128, where
    [(unsigned int)set <= 0xff] fails: the loop runs for 0..127 only. *)
Lemma sets_signed (k : nat) : forall ofuel set m,
  (k < ofuel)%nat -> (k <= 128)%nat ->
  set = (if Nat.eqb k 0 then -128 else 128 - Z.of_nat k) ->
  base m = buffer -> Z.of_nat (length (cells m)) = BUFFER_LEN ->
  exists m', sets ofuel set m = Done (Next (-128, m')).
Proof.
  induction k as [|k IH]; intros ofuel set m Hf Hk Hset Hb Hlen;
    (destruct ofuel as [|ofuel]; [lia|]); unfold sets;
    rewrite while_ret_S; cbv beta iota; simpl Nat.eqb in Hset; subst set.
  - change (to_uint32 (-128) <=? 255) with false. cbv iota.
    exists m. reflexivity.
  - set (s := 128 - Z.of_nat (S k)).
    assert (Hs : 0 <= s <= 127) by (subst s; lia).
    unfold to_uint32 at 1. rewrite Z.mod_small
      by (change (2 ^ 32) with 4294967296; lia).
    destruct (Z.leb_spec s 255) as [_|Hgt]; [|lia].
    destruct (good_low s Hs m Hlen) as (r & m' & Hcall & Hb' & Hl' & Hcells).
    rewrite <- Hb. rewrite Hcall. simpl bind.
    rewrite (scan_clean fuel m' (base m) s (BUFFER_LEN - 2 * u)
               (Z.to_nat (BUFFER_LEN - 2 * u - u)) u); try lia.
    + simpl bind. rewrite Hb. fold (sets ofuel (to_char (s + 1)) m').
      apply (IH ofuel); try lia; try congruence.
      unfold to_char. rewrite signed. subst s.
      destruct k as [|k]; simpl Nat.eqb; cbv iota.
      * reflexivity.
      * rewrite Z.mod_small by lia. lia.
    + intros j Hj. exists (Z.land s 255). split.
      * apply Hcells. exact Hj.
      * apply to_char_signed; [exact signed|lia].
Qed.

Lemma check_memset_signed m :
  (128 < fuel)%nat -> base m = buffer ->
  Z.of_nat (length (cells m)) = BUFFER_LEN ->
  check_memset f fuel u m = Done 0.
Proof.
  intros Hf Hb Hlen.
  destruct (sets_signed 128 fuel 0 m) as [m' Hrun]; try lia;
    try assumption; try reflexivity.
  unfold check_memset. rewrite Hb. unfold sets in Hrun. rewrite Hrun.
  reflexivity.
Qed.

End CheckSigned.

Lemma land_small a n : 0 <= n -> 0 <= a < 2 ^ n -> Z.land a (2 ^ n - 1) = a.
Proof. intros Hn Ha. rewrite Z.land_comm. apply land_ones_small; assumption. Qed.

(** [low7_memset] does what [check_memset] wants for the values 0..127. *)
Lemma low7_fills_buffer {P : Platform} fuel set :
  BUFFER_LEN < size_modulus -> (Z.to_nat BUFFER_LEN < fuel)%nat ->
  0 <= set <= 127 -> fills_buffer low7_memset fuel 0 set.
Proof.
  intros HM Hf Hset m Hlen. unfold low7_memset.
  assert (Hw : writable m (base m + 0) (BUFFER_LEN - 2 * 0)).
  { right. unfold limit. lia. }
  rewrite byte_loop_Z; [|unfold BUFFER_LEN in *; lia|exact Hf|exact Hw].
  simpl bind. eexists. eexists. split; [reflexivity|].
  split; [reflexivity|]. split; [apply fill_cells_length|].
  intros j Hj.
  assert (H255 : Z.land set 255 = set)
    by (apply (land_small set 8); simpl; lia).
  assert (H127 : Z.land set 127 = set)
    by (apply (land_small set 7); simpl; lia).
  rewrite H255, H127.
  apply (proj1 (filled_fills m _ _ set _ Hw)). lia.
Qed.

(** C3 (fails).  With a signed [char] the loop of [check_memset] stops when
    [++set] turns 127 into -128, so the values 128..255 are never tried:
    [low7_memset], which stores [c & 0x7f], passes the check (result [0],
    no mismatch), although for [c = 128] it leaves [buffer[0] = 0]. *)
Theorem check_memset_skips_high_values :
  check_memset (P := x86_64) (@low7_memset x86_64) 5000 0 buf4096
  = Done 0 /\
  exists m',
    low7_memset (P := x86_64) 5000%nat buf4096 (base buf4096) 128 BUFFER_LEN
    = Done (base buf4096, m') /\
    peek m' (base buf4096 + 0) = Some 0.
Proof.
  split.
  - apply (check_memset_signed (P := x86_64) (@low7_memset x86_64)
             5000 0 8192).
    + reflexivity.
    + vm_compute. split; discriminate.
    + change (Z.to_nat (BUFFER_LEN - 2 * 0 - 0)) with 4096%nat. lia.
    + intros set Hset. apply low7_fills_buffer.
      * vm_compute. reflexivity.
      * change (Z.to_nat BUFFER_LEN) with 4096%nat. lia.
      * exact Hset.
    + lia.
    + reflexivity.
    + reflexivity.
  - unfold low7_memset.
    assert (Hw : writable buf4096 (base buf4096) BUFFER_LEN).
    { right. vm_compute. split; discriminate. }
    rewrite byte_loop_Z;
      [|vm_compute; split; [discriminate|reflexivity]
       |change (Z.to_nat BUFFER_LEN) with 4096%nat; lia|exact Hw].
    simpl bind. eexists. split; [reflexivity|].
    apply (proj1 (filled_fills buf4096 _ _ (Z.land 128 127) _ Hw)).
    vm_compute. split; [discriminate|reflexivity].
Qed.

(** ** The three phases, when the request reaches the first boundary *)

Section ThreePhases.
Context {P : Platform}.
Variables (g w : nat) (mask tmask x b : Z).
Hypothesis word_size : Z.of_nat w = 2 ^ Z.of_nat g.
Hypothesis mask_tests_alignment :
  forall q, Z.land (to_uint32 q) mask = q mod 2 ^ Z.of_nat g.
Hypothesis tail_mask : tmask = 2 ^ Z.of_nat g - 1.
Hypothesis pattern : word_lanes w x = replicate w b.

Lemma three_phases fuel m dest sz :
  0 <= sz < size_modulus -> writable m dest sz ->
  (- dest) mod Z.of_nat w <= sz -> (Z.to_nat sz < fuel)%nat ->
  (let* (pp, sz1, m1) := prologue fuel mask b dest sz m in
   let* (p, _, m2) := word_loop fuel w x pp (Z.shiftr sz1 (Z.of_nat g)) m1 in
   let* (_, _, m3) := byte_loop fuel b p (Z.land sz1 tmask) m2 in
   Done (dest, m3))
  = Done (dest, filled m dest sz b (phase_stores w x b dest sz)).
Proof.
  intros Hsz Hw Hd Hf. unfold phase_stores. cbv zeta.
  pose proof word_size as HWeq.
  assert (HW : 0 < Z.of_nat w)
    by (rewrite HWeq; apply Z.pow_pos_nonneg; lia).
  assert (Hw0 : (0 < w)%nat) by lia.
  set (W := Z.of_nat w) in *. set (d := (- dest) mod W) in *.
  pose proof (Z.mod_pos_bound (- dest) W HW) as Hdr. fold d in Hdr.
  pose proof (Z.mod_pos_bound dest W HW) as Hmr.
  assert (Hal : (Z.to_nat d = 0%nat /\ dest mod W = 0) \/
                (dest mod W <> 0 /\ dest mod W + Z.of_nat (Z.to_nat d) = W)).
  { destruct (Z.eq_dec (dest mod W) 0) as [H0|Hn0].
    - left. split; [|exact H0]. unfold d.
      rewrite Z.mod_opp_l_z by (try assumption; lia). reflexivity.
    - right. split; [exact Hn0|]. unfold d.
      rewrite Z.mod_opp_l_nz by (try assumption; lia). lia. }
  set (rest := sz - d).
  assert (Hrest : 0 <= rest) by (unfold rest; lia).
  assert (Hdm : rest = W * (rest / W) + rest mod W)
    by (apply Z.div_mod; lia).
  pose proof (Z.mod_pos_bound rest W HW) as Htl.
  assert (Hcnt : 0 <= rest / W) by (apply Z.div_pos; lia).
  assert (Hcnt' : W * (rest / W) <= rest) by lia.
  assert (Hcle : rest / W <= rest).
  { assert (1 * (rest / W) <= W * (rest / W))
      by (apply Z.mul_le_mono_nonneg_r; lia). lia. }
  (* prologue *)
  rewrite HWeq in Hal.
  rewrite (prologue_reach g mask b mask_tests_alignment (Z.to_nat d));
    [|lia|exact Hal|lia|].
  2:{ destruct Hw as [H0|[Hb Hl]]; [left; lia|right; lia]. }
  rewrite Z2Nat.id by lia. simpl bind. fold rest.
  (* the word loop *)
  replace (Z.shiftr rest (Z.of_nat g)) with (rest / W)
    by (rewrite Z.shiftr_div_pow2 by lia; rewrite HWeq; reflexivity).
  replace (Z.land rest tmask) with (rest mod W).
  2:{ rewrite tail_mask.
      replace (2 ^ Z.of_nat g - 1) with (Z.ones (Z.of_nat g))
        by (rewrite Z.ones_equiv; lia).
      rewrite Z.land_ones by lia. rewrite HWeq. reflexivity. }
  rewrite (word_loop_Z fuel w x b); try assumption; try lia.
  2:{ fold W. destruct Hw as [H0|[Hb Hl]]; [left; nia|].
      right. rewrite limit_filled. simpl. lia. }
  simpl bind. fold W.
  (* the epilogue *)
  rewrite byte_loop_Z; try lia.
  2:{ destruct Hw as [H0|[Hb Hl]]; [left; lia|].
      right. rewrite !limit_filled. simpl. lia. }
  simpl bind.
  rewrite !filled_filled by lia.
  replace (d + (W * (rest / W) + rest mod W)) with sz
    by (unfold rest in *; lia).
  reflexivity.
Qed.

End ThreePhases.

(** ** The fillers on requests they handle *)

Section Correct.
Context {P : Platform}.
Variables (fuel : nat) (m : machine) (dest c sz : Z).
Hypothesis size_range : 0 <= sz < size_modulus.
Hypothesis owned : writable m dest sz.

Let b : Z := Z.land c 255.

Lemma pattern32_lanes : word_lanes 4 (pattern32 (to_uint32 b)) = replicate 4 b.
Proof.
  apply (word_lanes_replicated 32); [apply land_255_range| |simpl; lia].
  apply replicated_pattern32. apply land_255_range.
Qed.

Lemma land_mask_mod (g : nat) z :
  Z.land z (2 ^ Z.of_nat g - 1) = z mod 2 ^ Z.of_nat g.
Proof.
  replace (2 ^ Z.of_nat g - 1) with (Z.ones (Z.of_nat g))
    by (rewrite Z.ones_equiv; lia).
  apply Z.land_ones. lia.
Qed.

(** [wordwise_32_memset] on a multiple of 4 bytes. *)
Lemma wordwise_32_memset_ok :
  sz mod 4 = 0 -> (Z.to_nat (sz / 4) < fuel)%nat ->
  wordwise_32_memset fuel m dest c sz =
  Done (dest, filled m dest sz b
                (word_stores 4 dest (Z.to_nat (sz / 4))
                             (pattern32 (to_uint32 b)))).
Proof.
  intros Hmul Hf. unfold wordwise_32_memset. fold b.
  replace (Z.land sz 3) with (sz mod 4)
    by (symmetry; apply (land_mask_mod 2 sz)).
  rewrite Hmul. simpl negb. cbv iota.
  rewrite Z.shiftr_div_pow2 by lia. change (2 ^ 2) with 4.
  pose proof (Z.div_mod sz 4 ltac:(lia)) as Hdm.
  assert (Hc : 0 <= sz / 4 <= sz).
  { split; [apply Z.div_pos; lia|]. lia. }
  rewrite (word_loop_Z fuel 4 _ b); try lia.
  - simpl bind. change (Z.of_nat 4) with 4.
    replace (4 * (sz / 4)) with sz by lia. reflexivity.
  - apply pattern32_lanes.
  - change (Z.of_nat 4) with 4. replace (4 * (sz / 4)) with sz by lia.
    exact owned.
Qed.


(** [wordwise_memset] on a multiple of the word size. *)
Lemma wordwise_memset_ok :
  sz mod Z.of_nat sizeof_word = 0 -> (lg_bytes < fuel)%nat ->
  (Z.to_nat (sz / Z.of_nat sizeof_word) < fuel)%nat ->
  exists x,
    pattern_loop fuel (to_word b) = Done (3 + Z.of_nat lg_bytes, x) /\
    wordwise_memset fuel m dest c sz =
    Done (dest, filled m dest sz b
                  (word_stores sizeof_word dest
                     (Z.to_nat (sz / Z.of_nat sizeof_word)) x)).
Proof.
  intros Hmul Hfp Hf. pose proof sizeof_word_pos as HW.
  destruct (pattern_loop_spec b fuel (land_255_range c) Hfp) as [x [Hx Hrep]].
  exists x. split; [exact Hx|].
  unfold wordwise_memset. fold b. rewrite Hx. simpl bind.
  rewrite bytes_per_word_eq, shift_count_eq, tail_mask_word.
  rewrite sizeof_word_Z at 1. rewrite land_mask_mod, <- sizeof_word_Z.
  rewrite Hmul. simpl negb. cbv iota.
  rewrite Z.shiftr_div_pow2, <- sizeof_word_Z by lia.
  set (W := Z.of_nat sizeof_word) in *.
  assert (Hdm : sz = W * (sz / W) + sz mod W) by (apply Z.div_mod; lia).
  assert (Hc : 0 <= sz / W) by (apply Z.div_pos; lia).
  assert (Hcle : sz / W <= sz).
  { assert (1 * (sz / W) <= W * (sz / W))
      by (apply Z.mul_le_mono_nonneg_r; lia). lia. }
  rewrite (word_loop_Z fuel sizeof_word x b); try lia.
  - simpl bind. fold W. replace (W * (sz / W)) with sz by lia. reflexivity.
  - apply (word_lanes_replicated __WORDSIZE); [apply land_255_range|exact Hrep|].
    rewrite WORDSIZE_bytes. lia.
  - fold W. replace (W * (sz / W)) with sz by lia. exact owned.
Qed.

(** [wordwise_32_unaligned_memset] on a request that reaches the first
    4-byte boundary at or after [dest] (always so when [dest] is aligned). *)
Lemma wordwise_32_unaligned_memset_ok :
  (- dest) mod 4 <= sz -> (Z.to_nat sz < fuel)%nat ->
  wordwise_32_unaligned_memset fuel m dest c sz =
  Done (dest, filled m dest sz b
                (phase_stores 4 (pattern32 (to_uint32 b)) b dest sz)).
Proof.
  intros Hd Hf. unfold wordwise_32_unaligned_memset. fold b.
  apply (three_phases 2 4 3 3 (pattern32 (to_uint32 b)) b);
    try assumption; try reflexivity.
  - apply mask32_tests.
  - apply pattern32_lanes.
Qed.

(** [wordwise_unaligned_memset] on a request that reaches the first word
    boundary at or after [dest]. *)
Lemma wordwise_unaligned_memset_ok :
  (lg_bytes <= 27)%nat ->
  (- dest) mod Z.of_nat sizeof_word <= sz ->
  (lg_bytes < fuel)%nat -> (Z.to_nat sz < fuel)%nat ->
  exists x,
    pattern_loop fuel (to_word b) = Done (3 + Z.of_nat lg_bytes, x) /\
    wordwise_unaligned_memset fuel m dest c sz =
    Done (dest, filled m dest sz b (phase_stores sizeof_word x b dest sz)).
Proof.
  intros Hg Hd Hfp Hf.
  destruct (pattern_loop_spec b fuel (land_255_range c) Hfp) as [x [Hx Hrep]].
  exists x. split; [exact Hx|].
  unfold wordwise_unaligned_memset. fold b. rewrite Hx. simpl bind.
  rewrite bytes_per_word_eq, shift_count_eq.
  apply (three_phases lg_bytes sizeof_word
           (to_uint32 (Z.of_nat sizeof_word - 1))
           (to_word (Z.of_nat sizeof_word - 1)) x b);
    try assumption.
  - apply sizeof_word_Z.
  - intros q. apply mask_word_tests. exact Hg.
  - rewrite tail_mask_word, sizeof_word_Z. reflexivity.
  - apply (word_lanes_replicated __WORDSIZE); [apply land_255_range|exact Hrep|].
    rewrite WORDSIZE_bytes. lia.
Qed.

End Correct.

(** The scenario of the guard bytes: a 4096-byte buffer at any address,
    [W = 4], [wordwise_unaligned_memset(buffer + 1, 0x41, 4094)].  The call
    returns [buffer + 1], [buffer[1..4094]] hold [0x41], and [buffer[0]] and
    [buffer[4095]] are as before. *)
Lemma guard_bytes_scenario (P : Platform) fuel m :
  lg_bytes = 2%nat -> Z.of_nat (length (cells m)) = 4096 ->
  (4094 < fuel)%nat ->
  exists m',
    wordwise_unaligned_memset fuel m (base m + 1) 65 4094
    = Done (base m + 1, m') /\
    peek m' (base m) = peek m (base m) /\
    peek m' (base m + 4095) = peek m (base m + 4095) /\
    forall j, 1 <= j <= 4094 -> peek m' (base m + j) = Some 65.
Proof.
  intros Hlg Hlen Hf.
  assert (HW : Z.of_nat sizeof_word = 4)
    by (unfold sizeof_word; rewrite Hlg; reflexivity).
  assert (HM : size_modulus = 2 ^ 32)
    by (unfold size_modulus, __WORDSIZE; rewrite Hlg; reflexivity).
  assert (Hw : writable m (base m + 1) 4094)
    by (right; unfold limit; lia).
  destruct (wordwise_unaligned_memset_ok fuel m (base m + 1) 65 4094)
    as [x [_ Hrun]]; try assumption; try lia.
  - rewrite HW. pose proof (Z.mod_pos_bound (- (base m + 1)) 4). lia.
  - eexists. split; [exact Hrun|].
    destruct (filled_fills m (base m + 1) 4094 (Z.land 65 255)
                (phase_stores sizeof_word x (Z.land 65 255) (base m + 1) 4094)
                Hw) as [Hin Hout].
    split; [apply Hout; lia|]. split; [apply Hout; lia|].
    intros j Hj. apply Hin. lia.
Qed.

(** X11.  Where [wordwise_32_memset] and [wordwise_memset] meet their
    precondition, and where the unaligned fillers reach the first boundary,
    the four fillers leave the memory [bytewise_memset] leaves and return
    the same pointer. *)
Lemma wordwise_fillers_refine_bytewise (P : Platform) fuel m dest c sz :
  (lg_bytes <= 27)%nat -> 0 <= sz < size_modulus -> writable m dest sz ->
  (lg_bytes < fuel)%nat -> (Z.to_nat sz < fuel)%nat ->
  exists mb,
    bytewise_memset fuel m dest c sz = Done (dest, mb) /\
    (sz mod 4 = 0 ->
       exists m', wordwise_32_memset fuel m dest c sz = Done (dest, m') /\
                  base m' = base mb /\ cells m' = cells mb) /\
    (sz mod Z.of_nat sizeof_word = 0 ->
       exists m', wordwise_memset fuel m dest c sz = Done (dest, m') /\
                  base m' = base mb /\ cells m' = cells mb) /\
    ((- dest) mod 4 <= sz ->
       exists m', wordwise_32_unaligned_memset fuel m dest c sz
                  = Done (dest, m') /\
                  base m' = base mb /\ cells m' = cells mb) /\
    ((- dest) mod Z.of_nat sizeof_word <= sz ->
       exists m', wordwise_unaligned_memset fuel m dest c sz
                  = Done (dest, m') /\
                  base m' = base mb /\ cells m' = cells mb).
Proof.
  intros Hg Hsz Hw Hfp Hf. pose proof sizeof_word_pos as HW.
  eexists. split.
  { unfold bytewise_memset. rewrite byte_loop_Z by assumption.
    simpl bind. reflexivity. }
  assert (Hq : forall k, 0 < k -> (Z.to_nat (sz / k) <= Z.to_nat sz)%nat).
  { intros k Hk. apply Z2Nat.inj_le; try lia.
    - apply Z.div_pos; lia.
    - apply Z.div_le_upper_bound; nia. }
  repeat split.
  - intros Hmul. eexists. split.
    + apply wordwise_32_memset_ok; try assumption.
      pose proof (Hq 4). lia.
    + split; reflexivity.
  - intros Hmul.
    destruct (wordwise_memset_ok fuel m dest c sz) as [x [_ Hrun]];
      try assumption.
    + pose proof (Hq (Z.of_nat sizeof_word)). lia.
    + eexists. split; [exact Hrun|split; reflexivity].
  - intros Hd. eexists. split.
    + apply wordwise_32_unaligned_memset_ok; assumption.
    + split; reflexivity.
  - intros Hd.
    destruct (wordwise_unaligned_memset_ok fuel m dest c sz)
      as [x [_ Hrun]]; try assumption.
    eexists. split; [exact Hrun|split; reflexivity].
Qed.

(** X12.  A request of no bytes: [bytewise_memset], [wordwise_32_memset] and
    [wordwise_memset] store nothing and return [dest], wherever [dest] is;
    so do the unaligned fillers when [dest] is aligned. *)
Lemma zero_length_no_op (P : Platform) fuel m dest c :
  (lg_bytes <= 27)%nat -> (lg_bytes < fuel)%nat ->
  bytewise_memset fuel m dest c 0 = Done (dest, m) /\
  wordwise_32_memset fuel m dest c 0 = Done (dest, m) /\
  wordwise_memset fuel m dest c 0 = Done (dest, m) /\
  (dest mod 4 = 0 ->
     wordwise_32_unaligned_memset fuel m dest c 0 = Done (dest, m)) /\
  (dest mod Z.of_nat sizeof_word = 0 ->
     wordwise_unaligned_memset fuel m dest c 0 = Done (dest, m)).
Proof.
  intros Hg Hfp. pose proof size_modulus_ge as HM.
  pose proof sizeof_word_pos as HW.
  assert (Hsz : 0 <= 0 < size_modulus) by lia.
  assert (Hw : writable m dest 0) by (left; reflexivity).
  assert (Hf : (Z.to_nat 0 < fuel)%nat) by (simpl; lia).
  repeat split.
  - unfold bytewise_memset. rewrite byte_loop_Z by assumption.
    simpl bind. rewrite filled_none. reflexivity.
  - rewrite wordwise_32_memset_ok; try assumption; try reflexivity.
    change (word_stores 4 dest (Z.to_nat (0 / 4)) _) with (@nil store_event).
    rewrite filled_none. reflexivity.
  - destruct (wordwise_memset_ok fuel m dest c 0) as [x [_ Hrun]];
      try assumption.
    + apply Z.mod_0_l. lia.
    + rewrite Hrun. rewrite Z.div_0_l by lia.
      change (word_stores sizeof_word dest (Z.to_nat 0) x)
        with (@nil store_event).
      rewrite filled_none. reflexivity.
  - intros Hal.
    rewrite wordwise_32_unaligned_memset_ok; try assumption.
    + unfold phase_stores.
      rewrite Z.mod_opp_l_z by (try exact Hal; lia).
      simpl. rewrite filled_none. reflexivity.
    + rewrite Z.mod_opp_l_z by (try exact Hal; lia). lia.
  - intros Hal.
    destruct (wordwise_unaligned_memset_ok fuel m dest c 0)
      as [x [_ Hrun]]; try assumption.
    + rewrite Z.mod_opp_l_z by (try exact Hal; lia). lia.
    + rewrite Hrun. unfold phase_stores.
      rewrite Z.mod_opp_l_z by (try exact Hal; lia).
      rewrite Z.sub_0_r, Z.div_0_l, Z.mod_0_l by lia.
      simpl. rewrite filled_none. reflexivity.
Qed.

Section CheckUnsigned.
Context {P : Platform}.
Variables (f : filler) (fuel : nat) (u buffer : Z).
Hypothesis unsigned : char_signed = false.
Hypothesis right_if_returns :
  forall set, 0 <= set <= 255 -> fills_buffer_if_returns f fuel u set.

Lemma to_char_unsigned set :
  0 <= set <= 255 -> to_char (Z.land set 255) = set.
Proof.
  intros Hr. unfold to_char. rewrite unsigned.
  change 255 with (Z.ones 8). rewrite Z.land_ones by lia.
  change (2 ^ 8) with 256. rewrite Z.mod_mod by lia.
  apply Z.mod_small. lia.
Qed.

(** A scan over bytes that all hold [set] reports no mismatch, whatever
    the fuel. *)
Lemma scan_no_return m b set lim v : forall sfuel i,
  u <= i ->
  (forall j, u <= j < lim ->
     exists v, peek m (b + j) = Some v /\ to_char v = set) ->
  while_ret (R := Z) sfuel
    (fun i => (i <? lim, i))
    (fun i =>
       let* v := load_byte m (b + i) in
       if negb (to_char v =? set) then Done (Return (i + 1))
       else Done (Next (i + 1)))
    i <> Done (Return v).
Proof.
  induction sfuel as [|sfuel IH]; intros i Hi Hall; [discriminate|].
  rewrite while_ret_S.
  destruct (Z.ltb_spec i lim) as [Hlt|_]; [|discriminate].
  destruct (Hall i ltac:(lia)) as [v0 [Hv0 Hc]].
  unfold load_byte. rewrite Hv0. simpl bind. rewrite Hc, Z.eqb_refl.
  simpl negb. cbv iota. apply IH; [lia|exact Hall].
Qed.

Let sets (ofuel : nat) (set : Z) (m : machine)
  : outcome (flow (Z * machine) Z) :=
  while_ret ofuel
    (fun '(set, m) => (to_uint32 set <=? 255, (set, m)))
    (fun '(set, m) =>
       let* (_, m) :=
         f fuel m (buffer + u) set (BUFFER_LEN - 2 * u) in
       let* r :=
         while_ret fuel
           (fun i => (i <? BUFFER_LEN - 2 * u, i))
           (fun i =>
              let* v := load_byte m (buffer + i) in
              if negb (to_char v =? set) then Done (Return (i + 1))
              else Done (Next (i + 1)))
           u in
       match r with
       | Return v => Done (Return v)
       | Next _ => Done (Next (to_char (set + 1), m))
       end)
    (set, m).

(** With an unsigned [char], [set] goes from 255 back to 0 and
    [(unsigned int)set <= 0xff] always holds: the loop has no exit but a
    mismatch. *)
Lemma sets_unsigned : forall ofuel set m r,
  0 <= set <= 255 -> base m = buffer ->
  Z.of_nat (length (cells m)) = BUFFER_LEN ->
  sets ofuel set m <> Done r.
Proof.
  induction ofuel as [|ofuel IH]; intros set m r Hset Hb Hlen;
    [discriminate|].
  unfold sets. rewrite while_ret_S. cbv beta iota.
  unfold to_uint32 at 1.
  rewrite Z.mod_small by (change (2 ^ 32) with 4294967296; lia).
  destruct (Z.leb_spec set 255) as [_|Hgt]; [|lia].
  rewrite <- Hb.
  destruct (f fuel m (base m + u) set (BUFFER_LEN - 2 * u))
    as [[r0 m']| | |] eqn:Hcall; try discriminate.
  destruct (right_if_returns set Hset m r0 m' Hlen Hcall)
    as (Hb' & Hl' & Hcells).
  simpl bind.
  assert (Hall : forall j, u <= j < BUFFER_LEN - 2 * u ->
            exists v, peek m' (base m + j) = Some v /\ to_char v = set).
  { intros j Hj. exists (Z.land set 255). split.
    - apply Hcells. exact Hj.
    - apply to_char_unsigned. exact Hset. }
  pose proof (fun v => scan_no_return m' (base m) set
                         (BUFFER_LEN - 2 * u) v fuel u (Z.le_refl u) Hall)
    as Hscan.
  destruct (while_ret fuel _ _ u) as [[i|v]| | |];
    try discriminate; simpl bind.
  - rewrite Hb. fold (sets ofuel (to_char (set + 1)) m').
    apply IH; try congruence.
    unfold to_char. rewrite unsigned.
    pose proof (Z.mod_pos_bound (set + 1) 256). lia.
  - exfalso. apply (Hscan v). reflexivity.
Qed.

Lemma check_memset_unsigned_never_returns m v :
  base m = buffer -> Z.of_nat (length (cells m)) = BUFFER_LEN ->
  check_memset f fuel u m <> Done v.
Proof.
  intros Hb Hlen H. unfold check_memset in H. rewrite Hb in H.
  apply bind_Done in H. destruct H as [r [Hrun _]].
  revert Hrun. apply (sets_unsigned fuel 0 m r); try assumption. lia.
Qed.

End CheckUnsigned.

(** [bytewise_memset] is right whenever it returns. *)
Lemma bytewise_fills_buffer_if_returns {P : Platform} fuel set :
  BUFFER_LEN < size_modulus ->
  fills_buffer_if_returns bytewise_memset fuel 0 set.
Proof.
  intros HM m r m' Hlen Hcall.
  assert (Hw : writable m (base m + 0) (BUFFER_LEN - 2 * 0)).
  { right. unfold limit. lia. }
  assert (Hsz : 0 <= BUFFER_LEN - 2 * 0 < size_modulus)
    by (unfold BUFFER_LEN in *; lia).
  unfold bytewise_memset in Hcall.
  apply bind_Done in Hcall. destruct Hcall as [[[p s1] m1] [Hloop Hret]].
  unfold byte_loop in Hloop.
  apply (while_mono _ _ fuel
           (Nat.max fuel (S (Z.to_nat (BUFFER_LEN - 2 * 0))))) in Hloop;
    [|lia].
  fold (byte_loop (Nat.max fuel (S (Z.to_nat (BUFFER_LEN - 2 * 0))))
          (Z.land set 255) (base m + 0) (BUFFER_LEN - 2 * 0) m) in Hloop.
  rewrite byte_loop_Z in Hloop; [|exact Hsz|lia|exact Hw].
  injection Hloop as _ _ Hm1. injection Hret as _ Hm'. subst m' m1.
  split; [reflexivity|]. split; [apply fill_cells_length|].
  intros j Hj. apply (proj1 (filled_fills m _ _ (Z.land set 255) _ Hw)). lia.
Qed.

(** On a platform whose [char] is unsigned, [check_memset] of the correct
    [bytewise_memset] never returns, whatever the fuel. *)
Lemma check_memset_unsigned_loops fuel v :
  check_memset (P := aarch64) (@bytewise_memset aarch64) fuel 0 buf4096
  <> Done v.
Proof.
  apply (check_memset_unsigned_never_returns (P := aarch64)
           (@bytewise_memset aarch64) fuel 0 8192).
  - reflexivity.
  - intros set _. apply bytewise_fills_buffer_if_returns.
    vm_compute. reflexivity.
  - reflexivity.
  - reflexivity.
Qed.

(** [one_short_memset] fills every byte that [check_memset] reads when the
    offset is 1: the scan ends at [buffer[4093]], one byte before the end
    of the request. *)
Lemma one_short_fills_buffer {P : Platform} fuel set :
  BUFFER_LEN < size_modulus -> (Z.to_nat BUFFER_LEN < fuel)%nat ->
  fills_buffer one_short_memset fuel 1 set.
Proof.
  intros HM Hf m Hlen. unfold one_short_memset.
  change (BUFFER_LEN - 2 * 1 - 1) with 4093.
  change (BUFFER_LEN - 2 * 1) with 4094.
  unfold BUFFER_LEN in *.
  assert (Hw : writable m (base m + 1) 4093).
  { right. unfold limit. lia. }
  rewrite to_word_small by lia.
  rewrite byte_loop_Z; [|lia|simpl in *; lia|exact Hw].
  simpl bind. eexists. eexists. split; [reflexivity|].
  split; [reflexivity|]. split; [apply fill_cells_length|].
  intros j Hj.
  apply (proj1 (filled_fills m _ _ (Z.land set 255) _ Hw)). lia.
Qed.

(** With offset 1 [check_memset] asks for [buffer[1..4094]] to be filled
    and compares [buffer[1..4093]] only: [one_short_memset], which leaves
    [buffer[4094]] alone, passes. *)
Lemma check_memset_skips_last_byte :
  check_memset (P := x86_64) (@one_short_memset x86_64) 5000 1 buf4096
  = Done 0 /\
  exists m',
    one_short_memset (P := x86_64) 5000%nat buf4096 (base buf4096 + 1) 1
                     (BUFFER_LEN - 2 * 1)
    = Done (base buf4096 + 1, m') /\
    peek m' (base buf4096 + 4094) = Some 0.
Proof.
  split.
  - apply (check_memset_signed (P := x86_64) (@one_short_memset x86_64)
             5000 1 8192).
    + reflexivity.
    + vm_compute. split; discriminate.
    + change (Z.to_nat (BUFFER_LEN - 2 * 1 - 1)) with 4093%nat. lia.
    + intros set _. apply one_short_fills_buffer.
      * vm_compute. reflexivity.
      * change (Z.to_nat BUFFER_LEN) with 4096%nat. lia.
    + lia.
    + reflexivity.
    + reflexivity.
  - unfold one_short_memset.
    change (to_word (P := x86_64) (BUFFER_LEN - 2 * 1 - 1)) with 4093.
    assert (Hw : writable buf4096 (base buf4096 + 1) 4093).
    { right. vm_compute. split; discriminate. }
    rewrite byte_loop_Z;
      [|vm_compute; split; [discriminate|reflexivity]
       |change (Z.to_nat 4093) with 4093%nat; lia|exact Hw].
    simpl bind. eexists. split; [reflexivity|].
    rewrite (proj2 (filled_fills buf4096 _ _ (Z.land 1 255) _ Hw)).
    + vm_compute. reflexivity.
    + vm_compute. intros [_ H]. discriminate.
Qed.

(** What [check_memset] does report: when the filler is right for the values
    below [s] and, for [s], leaves a first wrong byte at [buffer[j]] among
    the bytes compared, the result is [j + 1].  [s] is a value the loop
    reaches: at most 127 with a signed [char], at most 255 otherwise. *)
Section CheckReport.
Context {P : Platform}.
Variables (f : filler) (fuel : nat) (u buffer s j : Z).
Hypothesis offset : 0 <= u <= j.
Hypothesis in_scan : j < BUFFER_LEN - 2 * u.
Hypothesis fuel_scan : (Z.to_nat (BUFFER_LEN - 2 * u - u) < fuel)%nat.
Hypothesis reached : 0 <= s <= (if char_signed then 127 else 255).
Hypothesis good_below :
  forall set, 0 <= set < s -> fills_buffer f fuel u set.
Hypothesis wrong_at :
  forall m, Z.of_nat (length (cells m)) = BUFFER_LEN ->
  exists r m' v,
    f fuel m (base m + u) s (BUFFER_LEN - 2 * u) = Done (r, m') /\
    (forall i, u <= i < j -> peek m' (base m + i) = Some (Z.land s 255)) /\
    peek m' (base m + j) = Some v /\ to_char v <> s.

Lemma to_char_reached set : 0 <= set <= s -> to_char (Z.land set 255) = set.
Proof.
  intros Hr. unfold to_char.
  change 255 with (Z.ones 8). rewrite Z.land_ones by lia.
  change (2 ^ 8) with 256.
  destruct char_signed.
  - rewrite Z.add_mod_idemp_l by lia. rewrite Z.mod_small by lia. lia.
  - rewrite Z.mod_mod by lia. apply Z.mod_small. lia.
Qed.

Lemma to_char_next set : 0 <= set < s -> to_char (set + 1) = set + 1.
Proof.
  intros Hr. unfold to_char. destruct char_signed.
  - rewrite Z.mod_small by lia. lia.
  - apply Z.mod_small. lia.
Qed.

Let sets (ofuel : nat) (set : Z) (m : machine)
  : outcome (flow (Z * machine) Z) :=
  while_ret ofuel
    (fun '(set, m) => (to_uint32 set <=? 255, (set, m)))
    (fun '(set, m) =>
       let* (_, m) :=
         f fuel m (buffer + u) set (BUFFER_LEN - 2 * u) in
       let* r :=
         while_ret fuel
           (fun i => (i <? BUFFER_LEN - 2 * u, i))
           (fun i =>
              let* v := load_byte m (buffer + i) in
              if negb (to_char v =? set) then Done (Return (i + 1))
              else Done (Next (i + 1)))
           u in
       match r with
       | Return v => Done (Return v)
       | Next _ => Done (Next (to_char (set + 1), m))
       end)
    (set, m).

Lemma sets_report (k : nat) : forall ofuel set m,
  (k < ofuel)%nat -> 0 <= set -> set + Z.of_nat k = s ->
  base m = buffer -> Z.of_nat (length (cells m)) = BUFFER_LEN ->
  sets ofuel set m = Done (Return (j + 1)).
Proof.
  assert (Hmax : s <= 255) by (destruct char_signed; lia).
  induction k as [|k IH]; intros ofuel set m Hf Hset Hk Hb Hlen;
    (destruct ofuel as [|ofuel]; [lia|]); unfold sets;
    rewrite while_ret_S; cbv beta iota;
    unfold to_uint32 at 1;
    rewrite Z.mod_small by (change (2 ^ 32) with 4294967296; lia);
    (destruct (Z.leb_spec set 255) as [_|Hgt]; [|lia]);
    rewrite <- Hb.
  - assert (set = s) by lia. subst set.
    destruct (wrong_at m Hlen) as (r & m' & v & Hcall & Hpre & Hv & Hne).
    rewrite Hcall. simpl bind.
    replace (j + 1) with (u + Z.of_nat (Z.to_nat (j - u)) + 1) by lia.
    rewrite (scan_mismatch fuel m' (base m) s (BUFFER_LEN - 2 * u)
               (Z.to_nat (j - u)) u v); try lia.
    + reflexivity.
    + intros i Hi. exists (Z.land s 255). split.
      * apply Hpre. lia.
      * apply to_char_reached. lia.
    + replace (u + Z.of_nat (Z.to_nat (j - u))) with j by lia. exact Hv.
  - destruct (good_below set ltac:(lia) m Hlen)
      as (r & m' & Hcall & Hb' & Hl' & Hcells).
    rewrite Hcall. simpl bind.
    rewrite (scan_clean fuel m' (base m) set (BUFFER_LEN - 2 * u)
               (Z.to_nat (BUFFER_LEN - 2 * u - u)) u); try lia.
    + simpl bind. rewrite Hb. rewrite to_char_next by lia.
      fold (sets ofuel (set + 1) m').
      apply (IH ofuel); try lia; congruence.
    + intros i Hi. exists (Z.land set 255). split.
      * apply Hcells. exact Hi.
      * apply to_char_reached. lia.
Qed.

Lemma check_memset_reports_first_mismatch m :
  (Z.to_nat s < fuel)%nat -> base m = buffer ->
  Z.of_nat (length (cells m)) = BUFFER_LEN ->
  check_memset f fuel u m = Done (j + 1).
Proof.
  intros Hf Hb Hlen. unfold check_memset. rewrite Hb.
  pose proof (sets_report (Z.to_nat s) fuel 0 m Hf (Z.le_refl 0)) as Hrun.
  unfold sets in Hrun. rewrite Hrun; try assumption; [reflexivity|lia].
Qed.

End CheckReport.

(** * Further properties of the code *)

(** ** The pattern word *)

Lemma pattern32_closed b :
  0 <= b < 256 -> pattern32 (to_uint32 b) = b * 16843009.
Proof.
  intros Hb.
  assert (H : forallb (fun n => pattern32 (to_uint32 (Z.of_nat n))
                                =? Z.of_nat n * 16843009)
                      (seq 0 256) = true) by (vm_compute; reflexivity).
  rewrite forallb_forall in H. specialize (H (Z.to_nat b)).
  rewrite Z2Nat.id in H by lia. apply Z.eqb_eq. apply H.
  apply in_seq. lia.
Qed.

(** X1.  The word that the 32-bit fillers store is [(c & 0xff) * 0x01010101],
    for every [int] [c]; it is a [uint32_t] value. *)
Theorem pattern32_value (c : Z) :
  pattern32 (to_uint32 (Z.land c 255)) = Z.land c 255 * 16843009 /\
  0 <= pattern32 (to_uint32 (Z.land c 255)) < 2 ^ 32.
Proof.
  pose proof (land_255_range c) as Hb.
  rewrite pattern32_closed by exact Hb.
  split; [reflexivity|]. change (2 ^ 32) with 4294967296. lia.
Qed.

Section PatternIndex.
Context {P : Platform}.

Lemma pattern_loop_lanes c fuel x i :
  pattern_loop fuel (to_word (Z.land c 255)) = Done (i, x) ->
  (lg_bytes < fuel)%nat ->
  i = 3 + Z.of_nat lg_bytes /\ replicated __WORDSIZE (Z.land c 255) x.
Proof.
  intros Hrun Hf.
  destruct (pattern_loop_spec (Z.land c 255) fuel (land_255_range c) Hf)
    as [x' [Hx' Hrep]].
  rewrite Hx' in Hrun. injection Hrun as <- <-. split; [reflexivity|exact Hrep].
Qed.

End PatternIndex.

(** X2.  What the comments of [wordwise_memset] say of [i] after the loop
    that builds the pattern: [1 << i] is the word size in bits, and
    [bytes_per_word = 1 << (i - 3)] is the size of a word in bytes,
    [sizeof(uintptr_t)], an eighth of [__WORDSIZE]. *)
Theorem pattern_loop_index (P : Platform) (c : Z) (fuel : nat) :
  (lg_bytes < fuel)%nat ->
  exists i x,
    pattern_loop fuel (to_word (Z.land c 255)) = Done (i, x) /\
    Z.shiftl 1 i = __WORDSIZE /\
    Z.shiftl 1 (i - 3) = Z.of_nat sizeof_word /\
    8 * Z.shiftl 1 (i - 3) = __WORDSIZE.
Proof.
  intros Hf.
  destruct (pattern_loop_spec (Z.land c 255) fuel (land_255_range c) Hf)
    as [x [Hx _]].
  exists (3 + Z.of_nat lg_bytes), x. split; [exact Hx|].
  rewrite bytes_per_word_eq, Z.shiftl_1_l, <- WORDSIZE_bytes.
  repeat split; reflexivity.
Qed.

Lemma pattern_loop_index_witness :
  exists i x,
    pattern_loop (P := x86_64) 10 (to_word (P := x86_64) (Z.land 321 255))
      = Done (i, x) /\
    Z.shiftl 1 i = __WORDSIZE (P := x86_64) /\
    Z.shiftl 1 (i - 3) = Z.of_nat (sizeof_word (P := x86_64)) /\
    8 * Z.shiftl 1 (i - 3) = __WORDSIZE (P := x86_64).
Proof.
  apply (pattern_loop_index x86_64 321 10). simpl. lia.
Defined.

(** ** The fillers that need a multiple of the word size *)

Section Multiples.
Context {P : Platform}.
Variables (fuel : nat) (m : machine) (dest c sz : Z).


End Multiples.

(** X3.  [wordwise_32_memset(dest, c, sz)] on [sz] bytes the caller owns,
    [sz] a multiple of 4, [dest] of any alignment: it returns [dest], sets
    the bytes of [dest, dest + sz) to [c & 0xff] and changes no other byte,
    in exactly [sz / 4] word stores of [(c & 0xff) * 0x01010101] at [dest],
    [dest + 4], ... *)
Theorem wordwise_32_memset_fills (P : Platform) fuel m dest c sz :
  0 <= sz < size_modulus -> sz mod 4 = 0 -> writable m dest sz ->
  (Z.to_nat (sz / 4) < fuel)%nat ->
  exists m',
    wordwise_32_memset fuel m dest c sz = Done (dest, m') /\
    fills m m' dest sz (Z.land c 255) /\
    trace m' = trace m ++ word_stores 4 dest (Z.to_nat (sz / 4))
                                      (Z.land c 255 * 16843009).
Proof.
  intros Hsz Hmul Hw Hf.
  rewrite wordwise_32_memset_ok by assumption.
  rewrite pattern32_closed by apply land_255_range.
  eexists. split; [reflexivity|]. split; [|reflexivity].
  apply filled_fills. exact Hw.
Qed.

Lemma wordwise_32_memset_fills_witness :
  exists m',
    wordwise_32_memset (P := x86_64) 10 buf16 4100 321 8 = Done (4100, m') /\
    fills buf16 m' 4100 8 (Z.land 321 255) /\
    trace m' = trace buf16 ++ word_stores 4 4100 (Z.to_nat (8 / 4))
                                          (Z.land 321 255 * 16843009).
Proof.
  apply (wordwise_32_memset_fills x86_64 10 buf16 4100 321 8).
  - vm_compute. split; [discriminate|reflexivity].
  - reflexivity.
  - right. vm_compute. split; discriminate.
  - vm_compute. lia.
Defined.

(** X4.  [wordwise_memset(dest, c, sz)] on [sz] bytes the caller owns, [sz]
    a multiple of the word size [W = sizeof(uintptr_t)]: it returns [dest],
    sets the bytes of [dest, dest + sz) to [c & 0xff] and changes no other
    byte, in exactly [sz / W] word stores, at [dest], [dest + W], ..., of
    a word whose byte lanes are all [c & 0xff]. *)
Theorem wordwise_memset_fills (P : Platform) fuel m dest c sz :
  0 <= sz < size_modulus -> sz mod Z.of_nat sizeof_word = 0 ->
  writable m dest sz -> (lg_bytes < fuel)%nat ->
  (Z.to_nat (sz / Z.of_nat sizeof_word) < fuel)%nat ->
  exists m' x,
    wordwise_memset fuel m dest c sz = Done (dest, m') /\
    fills m m' dest sz (Z.land c 255) /\
    (forall k : nat, (k < sizeof_word)%nat -> lane x k = Z.land c 255) /\
    trace m' = trace m ++
               word_stores sizeof_word dest
                           (Z.to_nat (sz / Z.of_nat sizeof_word)) x.
Proof.
  intros Hsz Hmul Hw Hfp Hf.
  destruct (wordwise_memset_ok fuel m dest c sz Hsz Hw Hmul Hfp Hf)
    as [x [Hx Hrun]].
  destruct (pattern_loop_lanes c fuel x _ Hx Hfp) as [_ Hrep].
  eexists. exists x. split; [exact Hrun|].
  split; [apply filled_fills; exact Hw|]. split; [|reflexivity].
  intros k Hk. unfold lane.
  apply (lane_replicated __WORDSIZE);
    [apply land_255_range|exact Hrep|].
  rewrite WORDSIZE_bytes. lia.
Qed.

Lemma wordwise_memset_fills_witness :
  exists m' x,
    wordwise_memset (P := x86_64) 10 buf16 4096 321 16 = Done (4096, m') /\
    fills buf16 m' 4096 16 (Z.land 321 255) /\
    (forall k : nat, (k < sizeof_word (P := x86_64))%nat ->
       lane x k = Z.land 321 255) /\
    trace m' = trace buf16 ++
               word_stores (sizeof_word (P := x86_64)) 4096
                 (Z.to_nat (16 / Z.of_nat (sizeof_word (P := x86_64)))) x.
Proof.
  apply (wordwise_memset_fills x86_64 10 buf16 4096 321 16).
  - vm_compute. split; [discriminate|reflexivity].
  - reflexivity.
  - right. vm_compute. split; discriminate.
  - simpl. lia.
  - vm_compute. lia.
Defined.



(** ** The unaligned fillers *)

Lemma byte_stores_app p (n1 n2 : nat) v :
  byte_stores p (n1 + n2) v =
  byte_stores p n1 v ++ byte_stores (p + Z.of_nat n1) n2 v.
Proof.
  revert p. induction n1 as [|n1 IH]; intros p.
  - simpl. rewrite Z.add_0_r. reflexivity.
  - change (S n1 + n2)%nat with (S (n1 + n2)).
    rewrite !byte_stores_S, IH. simpl.
    replace (p + 1 + Z.of_nat n1) with (p + Z.of_nat (S n1)) by lia.
    reflexivity.
Qed.

Lemma phase_stores_partition (w : nat) x b dest sz :
  (0 < w)%nat -> (- dest) mod Z.of_nat w <= sz ->
  three_phase_trace w b dest sz (phase_stores w x b dest sz).
Proof.
  intros Hw Hd. unfold phase_stores. cbv zeta.
  set (W := Z.of_nat w) in *. assert (HW : 0 < W) by lia.
  set (d := (- dest) mod W) in *.
  pose proof (Z.mod_pos_bound (- dest) W HW) as Hdr. fold d in Hdr.
  pose proof (Z.mod_pos_bound (sz - d) W HW) as Htr.
  exists d, ((sz - d) / W), ((sz - d) mod W), x.
  split; [exact Hdr|]. split; [apply Z.div_pos; lia|].
  split; [exact Htr|]. split.
  - pose proof (Z.div_mod (sz - d) W). lia.
  - split; [|reflexivity]. unfold d.
    rewrite Z.add_mod_idemp_r by lia.
    replace (dest + - dest) with 0 by lia. apply Z.mod_0_l. lia.
Qed.

(** X6.  [wordwise_32_unaligned_memset(dest, c, sz)] on [sz] bytes the
    caller owns, when [sz] is at least the distance from [dest] to the next
    4-byte boundary (always so for an aligned [dest]): it returns [dest],
    sets the bytes of [dest, dest + sz) to [c & 0xff] and changes no other
    byte. *)
Theorem wordwise_32_unaligned_memset_fills (P : Platform) fuel m dest c sz :
  0 <= sz < size_modulus -> writable m dest sz ->
  (- dest) mod 4 <= sz -> (Z.to_nat sz < fuel)%nat ->
  exists m',
    wordwise_32_unaligned_memset fuel m dest c sz = Done (dest, m') /\
    fills m m' dest sz (Z.land c 255).
Proof.
  intros Hsz Hw Hd Hf.
  rewrite wordwise_32_unaligned_memset_ok by assumption.
  eexists. split; [reflexivity|]. apply filled_fills. exact Hw.
Qed.

Lemma wordwise_32_unaligned_memset_fills_witness :
  exists m',
    wordwise_32_unaligned_memset (P := x86_64) 20 buf16 4097 321 14
    = Done (4097, m') /\
    fills buf16 m' 4097 14 (Z.land 321 255).
Proof.
  apply (wordwise_32_unaligned_memset_fills x86_64 20 buf16 4097 321 14).
  - vm_compute. split; [discriminate|reflexivity].
  - right. vm_compute. split; discriminate.
  - vm_compute. discriminate.
  - vm_compute. lia.
Defined.

(** X7.  [wordwise_unaligned_memset(dest, c, sz)] on [sz] bytes the caller
    owns, when [sz] is at least the distance from [dest] to the next word
    boundary (always so for an aligned [dest]): it returns [dest], sets the
    bytes of [dest, dest + sz) to [c & 0xff] and changes no other byte. *)
Theorem wordwise_unaligned_memset_fills (P : Platform) fuel m dest c sz :
  (lg_bytes <= 27)%nat ->
  0 <= sz < size_modulus -> writable m dest sz ->
  (- dest) mod Z.of_nat sizeof_word <= sz ->
  (lg_bytes < fuel)%nat -> (Z.to_nat sz < fuel)%nat ->
  exists m',
    wordwise_unaligned_memset fuel m dest c sz = Done (dest, m') /\
    fills m m' dest sz (Z.land c 255).
Proof.
  intros Hg Hsz Hw Hd Hfp Hf.
  destruct (wordwise_unaligned_memset_ok fuel m dest c sz Hsz Hw Hg Hd Hfp Hf)
    as [x [_ Hrun]].
  eexists. split; [exact Hrun|]. apply filled_fills. exact Hw.
Qed.

Lemma wordwise_unaligned_memset_fills_witness :
  exists m',
    wordwise_unaligned_memset (P := x86_64) 20 buf16 4097 321 14
    = Done (4097, m') /\
    fills buf16 m' 4097 14 (Z.land 321 255).
Proof.
  apply (wordwise_unaligned_memset_fills x86_64 20 buf16 4097 321 14).
  - simpl. lia.
  - vm_compute. split; [discriminate|reflexivity].
  - right. vm_compute. split; discriminate.
  - vm_compute. discriminate.
  - simpl. lia.
  - vm_compute. lia.
Defined.

(** X8.  The partition of such a request.  The stores of both unaligned
    fillers come in three runs: [d] single bytes from [dest] up to the next
    word boundary, then [q] whole words from that boundary (every word
    store is aligned), then [t] single bytes; [d < W], [t < W] and
    [d + W * q + t = sz]. *)
Theorem unaligned_fillers_partition (P : Platform) fuel m dest c sz :
  (lg_bytes <= 27)%nat ->
  0 <= sz < size_modulus -> writable m dest sz ->
  (lg_bytes < fuel)%nat -> (Z.to_nat sz < fuel)%nat ->
  ((- dest) mod 4 <= sz ->
     exists m' evs,
       wordwise_32_unaligned_memset fuel m dest c sz = Done (dest, m') /\
       trace m' = trace m ++ evs /\
       three_phase_trace 4 (Z.land c 255) dest sz evs) /\
  ((- dest) mod Z.of_nat sizeof_word <= sz ->
     exists m' evs,
       wordwise_unaligned_memset fuel m dest c sz = Done (dest, m') /\
       trace m' = trace m ++ evs /\
       three_phase_trace sizeof_word (Z.land c 255) dest sz evs).
Proof.
  intros Hg Hsz Hw Hfp Hf. pose proof sizeof_word_pos as HW. split.
  - intros Hd. rewrite wordwise_32_unaligned_memset_ok by assumption.
    eexists. eexists. split; [reflexivity|]. split; [reflexivity|].
    apply phase_stores_partition; [lia|exact Hd].
  - intros Hd.
    destruct (wordwise_unaligned_memset_ok fuel m dest c sz
                Hsz Hw Hg Hd Hfp Hf) as [x [_ Hrun]].
    eexists. eexists. split; [exact Hrun|]. split; [reflexivity|].
    apply phase_stores_partition; [lia|exact Hd].
Qed.

Lemma unaligned_fillers_partition_witness :
  exists m' evs,
    wordwise_unaligned_memset (P := x86_64) 30 buf16 4097 321 15
    = Done (4097, m') /\
    trace m' = trace buf16 ++ evs /\
    three_phase_trace (sizeof_word (P := x86_64)) (Z.land 321 255)
                      4097 15 evs.
Proof.
  refine (proj2 (unaligned_fillers_partition x86_64 30 buf16 4097 321 15
                   _ _ _ _ _) _).
  - simpl. lia.
  - vm_compute. split; [discriminate|reflexivity].
  - right. vm_compute. split; discriminate.
  - simpl. lia.
  - vm_compute. lia.
  - vm_compute. discriminate.
Defined.

(** X9.  The request that ends before the first boundary: [dest] is
    misaligned and [sz] is less than the distance to the next boundary
    ([sz = 0] included).  On an object that does not reach the last word of
    the address space, neither unaligned filler returns, however long it
    runs: the word loop, entered with the wrapped counter, leaves the
    object. *)
Theorem short_request_never_returns (P : Platform) m dest c sz :
  (lg_bytes <= 27)%nat -> 0 <= sz -> 0 <= dest -> writable m dest sz ->
  (dest mod 4 <> 0 -> sz < 4 - dest mod 4 ->
   limit m + 4 <= size_modulus ->
   forall fuel r, wordwise_32_unaligned_memset fuel m dest c sz <> Done r) /\
  (dest mod Z.of_nat sizeof_word <> 0 ->
   sz < Z.of_nat sizeof_word - dest mod Z.of_nat sizeof_word ->
   limit m + Z.of_nat sizeof_word <= size_modulus ->
   forall fuel r, wordwise_unaligned_memset fuel m dest c sz <> Done r).
Proof.
  intros Hg Hsz Hdest Hw. split.
  - intros Hmis Hlt Hroom. apply short32_never_returns; assumption.
  - intros Hmis Hlt Hroom. apply short_word_never_returns; assumption.
Qed.

Lemma short_request_never_returns_witness :
  (forall fuel r,
     wordwise_32_unaligned_memset (P := x86_64) fuel buf16 4097 321 2
     <> Done r) /\
  (forall fuel r,
     wordwise_unaligned_memset (P := x86_64) fuel buf16 4097 321 2
     <> Done r).
Proof.
  destruct (short_request_never_returns x86_64 buf16 4097 321 2)
    as [H32 HW].
  - simpl. lia.
  - lia.
  - lia.
  - right. vm_compute. split; discriminate.
  - split.
    + apply H32.
      * vm_compute. discriminate.
      * vm_compute. reflexivity.
      * vm_compute. discriminate.
    + apply HW.
      * vm_compute. discriminate.
      * vm_compute. reflexivity.
      * vm_compute. discriminate.
Defined.

(** ** The generic fillers where a word has 32 bits *)

Section Word32.
Context {P : Platform}.
Hypothesis word32 : lg_bytes = 2%nat.

Lemma to_word_32 z : to_word z = to_uint32 z.
Proof.
  unfold to_word, to_uint32, size_modulus, __WORDSIZE.
  rewrite word32. reflexivity.
Qed.

Lemma sizeof_word_32 : sizeof_word = 4%nat.
Proof. unfold sizeof_word. rewrite word32. reflexivity. Qed.

(** The loop does the two steps of [pattern32], and stops at [i = 5]. *)
Lemma pattern_loop_32 fuel x :
  (2 < fuel)%nat -> pattern_loop fuel x = Done (5, pattern32 x).
Proof.
  intros Hf. destruct fuel as [|[|[|fuel]]]; try lia.
  assert (HW : __WORDSIZE = 32)
    by (unfold __WORDSIZE; rewrite word32; reflexivity).
  unfold pattern_loop. rewrite HW. rewrite while_S. cbv beta iota.
  change (Z.shiftl 1 3 <? 32) with true. cbv iota.
  cbn [bind]. change (3 + 1) with 4. rewrite while_S. cbv beta iota.
  change (Z.shiftl 1 4 <? 32) with true. cbv iota.
  cbn [bind]. change (4 + 1) with 5. rewrite while_S. cbv beta iota.
  change (Z.shiftl 1 5 <? 32) with false. cbv iota.
  unfold pattern32. rewrite !to_word_32.
  change (Z.shiftl 1 3) with 8. change (Z.shiftl 1 4) with 16. reflexivity.
Qed.

End Word32.

(** X10.  Where [__WORDSIZE] is 32, the architecture-independent fillers do
    exactly what the 32-bit ones do, on every input and state: the same
    stores, the same memory, the same result, the assert and the runaway
    of a short request included. *)
Theorem generic_fillers_at_32_bits (P : Platform) fuel m s c sz :
  lg_bytes = 2%nat -> (2 < fuel)%nat ->
  wordwise_memset fuel m s c sz = wordwise_32_memset fuel m s c sz /\
  wordwise_unaligned_memset fuel m s c sz
  = wordwise_32_unaligned_memset fuel m s c sz.
Proof.
  intros H32 Hf.
  unfold wordwise_memset, wordwise_32_memset, wordwise_unaligned_memset,
    wordwise_32_unaligned_memset.
  rewrite !(pattern_loop_32 H32) by exact Hf. simpl bind.
  rewrite !(to_word_32 H32), (sizeof_word_32 H32).
  change (Z.shiftl 1 (5 - 3) - 1) with 3. change (5 - 3) with 2.
  change (to_uint32 3) with 3.
  split; reflexivity.
Qed.

Lemma generic_fillers_at_32_bits_witness :
  wordwise_memset (P := i386) 10 buf16 4097 321 2
  = wordwise_32_memset (P := i386) 10 buf16 4097 321 2 /\
  wordwise_unaligned_memset (P := i386) 10 buf16 4097 321 2
  = wordwise_32_unaligned_memset (P := i386) 10 buf16 4097 321 2.
Proof.
  apply (generic_fillers_at_32_bits i386 10 buf16 4097 321 2).
  - reflexivity.
  - lia.
Defined.

Lemma wordwise_fillers_refine_bytewise_witness :
  exists mb,
    bytewise_memset (P := x86_64) 20 buf16 4096 321 16 = Done (4096, mb) /\
    exists m',
      wordwise_memset (P := x86_64) 20 buf16 4096 321 16 = Done (4096, m') /\
      base m' = base mb /\ cells m' = cells mb.
Proof.
  destruct (wordwise_fillers_refine_bytewise x86_64 20 buf16 4096 321 16)
    as (mb & Hb & _ & Hw & _).
  - simpl. lia.
  - vm_compute. split; [discriminate|reflexivity].
  - right. vm_compute. split; discriminate.
  - simpl. lia.
  - vm_compute. lia.
  - exists mb. split; [exact Hb|]. apply Hw. reflexivity.
Defined.

Lemma zero_length_no_op_witness :
  bytewise_memset (P := x86_64) 10 buf16 4099 321 0 = Done (4099, buf16) /\
  wordwise_32_memset (P := x86_64) 10 buf16 4099 321 0 = Done (4099, buf16) /\
  wordwise_memset (P := x86_64) 10 buf16 4099 321 0 = Done (4099, buf16).
Proof.
  destruct (zero_length_no_op x86_64 10 buf16 4099 321)
    as (H1 & H2 & H3 & _).
  - simpl. lia.
  - simpl. lia.
  - exact (conj H1 (conj H2 H3)).
Defined.

(** ** Fills one after the other *)

Lemma fill_cells_overwrite b l a n v1 v2 :
  fill_cells b (fill_cells b l a n v1) a n v2 = fill_cells b l a n v2.
Proof.
  apply list_eq. intros i. rewrite !fill_cells_lookup.
  destruct (l !! i); simpl; [f_equal|reflexivity].
  split_cmp; reflexivity.
Qed.

(** X13.  A fill done in two calls: [bytewise_memset(dest, c, n1)] followed
    by [bytewise_memset(dest + n1, c, n2)] leaves the state, stores
    included, that the one call [bytewise_memset(dest, c, n1 + n2)]
    leaves. *)
Theorem bytewise_memset_split (P : Platform) fuel m dest c n1 n2 :
  0 <= n1 -> 0 <= n2 -> n1 + n2 < size_modulus ->
  writable m dest (n1 + n2) -> (Z.to_nat (n1 + n2) < fuel)%nat ->
  exists m1 m2,
    bytewise_memset fuel m dest c n1 = Done (dest, m1) /\
    bytewise_memset fuel m1 (dest + n1) c n2 = Done (dest + n1, m2) /\
    bytewise_memset fuel m dest c (n1 + n2) = Done (dest, m2).
Proof.
  intros H1 H2 HM Hw Hf. unfold bytewise_memset.
  assert (Hw1 : writable m dest n1).
  { destruct Hw as [H0|[Hb Hl]]; [left; lia|right; lia]. }
  rewrite (byte_loop_Z fuel _ dest n1) by (try assumption; lia).
  rewrite (byte_loop_Z fuel _ dest (n1 + n2)) by (try assumption; lia).
  simpl bind. eexists. eexists. split; [reflexivity|].
  rewrite byte_loop_Z; try lia.
  - simpl bind. split; [reflexivity|]. rewrite filled_filled by lia.
    rewrite Z2Nat.inj_add, byte_stores_app by lia.
    rewrite Z2Nat.id by lia. reflexivity.
  - destruct Hw as [H0|[Hb Hl]]; [left; lia|].
    right. rewrite limit_filled. simpl. lia.
Qed.

Lemma bytewise_memset_split_witness :
  exists m1 m2,
    bytewise_memset (P := x86_64) 20 buf16 4097 321 3 = Done (4097, m1) /\
    bytewise_memset (P := x86_64) 20 m1 (4097 + 3) 321 5
    = Done (4097 + 3, m2) /\
    bytewise_memset (P := x86_64) 20 buf16 4097 321 (3 + 5)
    = Done (4097, m2).
Proof.
  apply (bytewise_memset_split x86_64 20 buf16 4097 321 3 5).
  - lia.
  - lia.
  - vm_compute. reflexivity.
  - right. vm_compute. split; discriminate.
  - vm_compute. lia.
Defined.

(** X14.  The last fill wins: after [bytewise_memset(dest, c1, sz)], the
    call [bytewise_memset(dest, c2, sz)] leaves in memory what it leaves
    when called first. *)
Theorem bytewise_memset_overwrite (P : Platform) fuel m dest c1 c2 sz :
  0 <= sz < size_modulus -> writable m dest sz ->
  (Z.to_nat sz < fuel)%nat ->
  exists m1 m2 m2',
    bytewise_memset fuel m dest c1 sz = Done (dest, m1) /\
    bytewise_memset fuel m1 dest c2 sz = Done (dest, m2) /\
    bytewise_memset fuel m dest c2 sz = Done (dest, m2') /\
    base m2 = base m2' /\ cells m2 = cells m2'.
Proof.
  intros Hsz Hw Hf. unfold bytewise_memset.
  rewrite !(byte_loop_Z fuel _ dest sz m) by assumption.
  simpl bind. eexists. eexists. eexists. split; [reflexivity|].
  rewrite byte_loop_Z; try assumption.
  - simpl bind. split; [reflexivity|]. split; [reflexivity|].
    split; [reflexivity|]. simpl. apply fill_cells_overwrite.
  - destruct Hw as [H0|[Hb Hl]]; [left; lia|].
    right. rewrite limit_filled. simpl. lia.
Qed.

Lemma bytewise_memset_overwrite_witness :
  exists m1 m2 m2',
    bytewise_memset (P := x86_64) 20 buf16 4097 321 5 = Done (4097, m1) /\
    bytewise_memset (P := x86_64) 20 m1 4097 7 5 = Done (4097, m2) /\
    bytewise_memset (P := x86_64) 20 buf16 4097 7 5 = Done (4097, m2') /\
    base m2 = base m2' /\ cells m2 = cells m2'.
Proof.
  apply (bytewise_memset_overwrite x86_64 20 buf16 4097 321 7 5).
  - vm_compute. split; [discriminate|reflexivity].
  - right. vm_compute. split; discriminate.
  - vm_compute. lia.
Defined.

(** ** More on the self test *)

Lemma while_ret_returns {S R : Type} (I : S -> Prop) (Q : R -> Prop)
    (cond : S -> bool * S) (body : S -> outcome (flow S R)) :
  (forall s s1 r, I s -> cond s = (true, s1) -> body s1 = Done r ->
     match r with Next s2 => I s2 | Return v => Q v end) ->
  forall fuel s v,
    I s -> while_ret fuel cond body s = Done (Return v) -> Q v.
Proof.
  intros Hstep. induction fuel as [|fuel IH]; intros s v Hs H;
    [discriminate|].
  rewrite while_ret_S in H. destruct (cond s) as [b s1] eqn:Hc.
  destruct b; [|discriminate].
  destruct (body s1) as [r| | |] eqn:Hb; simpl in H; try discriminate.
  pose proof (Hstep s s1 r Hs Hc Hb) as Hr.
  destruct r as [s2|v'].
  - apply (IH s2 v Hr H).
  - injection H as ->. exact Hr.
Qed.

(** X15.  Whatever the filler does, a result of [check_memset] is [0] or
    [i + 1] for an index [i] that the scan visits,
    [unaligned <= i < BUFFER_LEN - 2 * unaligned]. *)
Theorem check_memset_result_range (P : Platform) (f : filler) fuel u m v :
  check_memset f fuel u m = Done v ->
  v = 0 \/ (u < v <= BUFFER_LEN - 2 * u).
Proof.
  intros H. unfold check_memset in H.
  apply bind_Done in H. destruct H as [r [Hrun Hret]].
  destruct r as [s|v']; injection Hret as <-; [left; reflexivity|right].
  revert Hrun.
  apply (while_ret_returns (fun _ => True)
           (fun v => u < v <= BUFFER_LEN - 2 * u)); [|exact I].
  intros [set m0] s1 r _ Hcond Hbody.
  destruct r as [s2|v]; [exact I|].
  injection Hcond as _ <-. cbv beta iota in Hbody.
  apply bind_Done in Hbody. destruct Hbody as [[r0 m1] [_ Hbody]].
  apply bind_Done in Hbody. destruct Hbody as [r1 [Hscan Hr1]].
  destruct r1 as [i|v1]; [discriminate|]. injection Hr1 as <-.
  revert Hscan.
  apply (while_ret_returns (fun i => u <= i)
           (fun v => u < v <= BUFFER_LEN - 2 * u)); [|lia].
  intros i i1 r Hi Hc Hb. cbv beta in Hc.
  destruct (Z.ltb_spec i (BUFFER_LEN - 2 * u)) as [Hlt|_];
    [|discriminate].
  injection Hc as <-.
  apply bind_Done in Hb. destruct Hb as [v0 [_ Hb]].
  destruct (negb (to_char v0 =? set)); injection Hb as <-; lia.
Qed.

Lemma check_memset_result_range_witness :
  1 = 0 \/ (0 < 1 <= BUFFER_LEN - 2 * 0).
Proof.
  apply (check_memset_result_range x86_64
           (fun _ m s _ _ => Done (s, m)) 10 0
           {| base := 8192; cells := replicate 4096 1; trace := [] |} 1).
  vm_compute. reflexivity.
Defined.

(** [f] returns with the request filled: then [check_memset] finds every
    byte it reads equal to the value. *)
Lemma filled_fills_buffer (f : filler) fuel u set :
  0 <= u ->
  (forall m, Z.of_nat (length (cells m)) = BUFFER_LEN ->
     exists evs,
       f fuel m (base m + u) set (BUFFER_LEN - 2 * u)
       = Done (base m + u,
               filled m (base m + u) (BUFFER_LEN - 2 * u)
                      (Z.land set 255) evs)) ->
  fills_buffer f fuel u set.
Proof.
  intros Hu Hrun m Hlen. destruct (Hrun m Hlen) as [evs Hcall].
  eexists. eexists. split; [exact Hcall|].
  split; [reflexivity|]. split; [apply fill_cells_length|].
  intros j Hj.
  assert (Hw : writable m (base m + u) (BUFFER_LEN - 2 * u))
    by (right; unfold limit; lia).
  apply (proj1 (filled_fills m _ _ (Z.land set 255) evs Hw)). lia.
Qed.

Section FillersPassCheck.
Context {P : Platform}.
Variables (fuel : nat) (u set : Z).
Hypothesis word_size : (1 <= lg_bytes <= 11)%nat.
Hypothesis enough_fuel : (Z.to_nat BUFFER_LEN < fuel)%nat.
Hypothesis offset : u = 0 \/ u = 1.

Lemma buffer_fits : 65536 <= size_modulus.
Proof.
  unfold size_modulus. change 65536 with (2 ^ 16).
  apply Z.pow_le_mono_r; [lia|]. unfold __WORDSIZE.
  change 16 with (2 ^ 4). apply Z.pow_le_mono_r; lia.
Qed.

Lemma word_at_most_2048 : Z.of_nat sizeof_word <= 2048.
Proof.
  rewrite sizeof_word_Z. change 2048 with (2 ^ 11).
  apply Z.pow_le_mono_r; lia.
Qed.

Lemma word_divides_buffer : BUFFER_LEN mod Z.of_nat sizeof_word = 0.
Proof.
  rewrite sizeof_word_Z. apply Z.mod_divide.
  - pose proof (Z.pow_pos_nonneg 2 (Z.of_nat lg_bytes)). lia.
  - exists (2 ^ (12 - Z.of_nat lg_bytes)).
    rewrite <- Z.pow_add_r by lia.
    replace (12 - Z.of_nat lg_bytes + Z.of_nat lg_bytes) with 12 by lia.
    reflexivity.
Qed.

Ltac request_facts :=
  pose proof buffer_fits; pose proof word_at_most_2048;
  pose proof sizeof_word_pos;
  change (Z.to_nat BUFFER_LEN) with 4096%nat in enough_fuel;
  unfold BUFFER_LEN in *.

Lemma bytewise_passes : fills_buffer bytewise_memset fuel u set.
Proof.
  apply filled_fills_buffer; [lia|]. intros m Hlen. request_facts.
  unfold bytewise_memset. rewrite byte_loop_Z.
  - simpl bind. eexists. reflexivity.
  - lia.
  - lia.
  - right. unfold limit. lia.
Qed.

Lemma wordwise_32_passes :
  u = 0 -> fills_buffer wordwise_32_memset fuel u set.
Proof.
  intros ->. apply filled_fills_buffer; [lia|]. intros m Hlen.
  request_facts. eexists. apply wordwise_32_memset_ok.
  - lia.
  - right. unfold limit. lia.
  - reflexivity.
  - change (Z.to_nat ((4096 - 2 * 0) / 4)) with 1024%nat. lia.
Qed.

Lemma wordwise_passes :
  u = 0 -> fills_buffer wordwise_memset fuel u set.
Proof.
  intros ->. apply filled_fills_buffer; [lia|]. intros m Hlen.
  pose proof word_divides_buffer as Hdiv. request_facts.
  destruct (wordwise_memset_ok fuel m (base m + 0) set (4096 - 2 * 0))
    as [x [_ Hrun]].
  - lia.
  - right. unfold limit. lia.
  - exact Hdiv.
  - lia.
  - assert (Z.to_nat ((4096 - 2 * 0) / Z.of_nat sizeof_word) <= 4096)%nat;
      [|lia].
    change 4096%nat with (Z.to_nat 4096). apply Z2Nat.inj_le; try lia.
    + apply Z.div_pos; lia.
    + apply Z.div_le_upper_bound; nia.
  - eexists. exact Hrun.
Qed.

Lemma wordwise_32_unaligned_passes :
  fills_buffer wordwise_32_unaligned_memset fuel u set.
Proof.
  apply filled_fills_buffer; [lia|]. intros m Hlen. request_facts.
  eexists. apply wordwise_32_unaligned_memset_ok.
  - lia.
  - right. unfold limit. lia.
  - pose proof (Z.mod_pos_bound (- (base m + u)) 4). lia.
  - lia.
Qed.

Lemma wordwise_unaligned_passes :
  fills_buffer wordwise_unaligned_memset fuel u set.
Proof.
  apply filled_fills_buffer; [lia|]. intros m Hlen. request_facts.
  destruct (wordwise_unaligned_memset_ok fuel m (base m + u) set
              (4096 - 2 * u)) as [x [_ Hrun]].
  - lia.
  - right. unfold limit. lia.
  - lia.
  - pose proof (Z.mod_pos_bound (- (base m + u)) (Z.of_nat sizeof_word)).
    lia.
  - lia.
  - lia.
  - eexists. exact Hrun.
Qed.

End FillersPassCheck.

(** X16.  With a signed [char], [check_memset] tries the values 0..127 and
    no other: a filler that fills the bytes compared for each of these
    values passes (result [0]), whatever it does for 128..255. *)
Theorem check_memset_passes_low_values (P : Platform) (f : filler) fuel u m :
  char_signed = true -> 0 <= u <= BUFFER_LEN - 2 * u ->
  (Z.to_nat (BUFFER_LEN - 2 * u - u) < fuel)%nat -> (128 < fuel)%nat ->
  Z.of_nat (length (cells m)) = BUFFER_LEN ->
  (forall set, 0 <= set <= 127 -> fills_buffer f fuel u set) ->
  check_memset f fuel u m = Done 0.
Proof.
  intros Hs Hu Hscan Hf Hlen Hgood.
  apply (check_memset_signed f fuel u (base m)); try assumption.
  reflexivity.
Qed.

Lemma check_memset_passes_low_values_witness :
  check_memset (P := x86_64) (@wordwise_unaligned_memset x86_64) 5000 1
               buf4096 = Done 0.
Proof.
  apply (check_memset_passes_low_values x86_64).
  - reflexivity.
  - vm_compute. split; discriminate.
  - change (Z.to_nat (BUFFER_LEN - 2 * 1 - 1)) with 4093%nat. lia.
  - lia.
  - reflexivity.
  - intros set _. apply wordwise_unaligned_passes.
    + simpl. lia.
    + change (Z.to_nat BUFFER_LEN) with 4096%nat. lia.
    + right. reflexivity.
Defined.

(** X17.  With an unsigned [char] the loop over the values has no exit but
    a mismatch: for a filler that is right whenever it returns,
    [check_memset] never returns, however long it runs. *)
Theorem check_memset_hangs_unsigned (P : Platform) (f : filler) fuel u m v :
  char_signed = false ->
  Z.of_nat (length (cells m)) = BUFFER_LEN ->
  (forall set, 0 <= set <= 255 -> fills_buffer_if_returns f fuel u set) ->
  check_memset f fuel u m <> Done v.
Proof.
  intros Hs Hlen Hgood.
  apply (check_memset_unsigned_never_returns f fuel u (base m));
    try assumption. reflexivity.
Qed.

Lemma check_memset_hangs_unsigned_witness :
  char_signed (Platform := aarch64) = false /\
  check_memset (P := aarch64) (@bytewise_memset aarch64) 5000 0 buf4096
  <> Done 0.
Proof.
  split; [reflexivity|].
  apply (check_memset_hangs_unsigned aarch64).
  - reflexivity.
  - reflexivity.
  - intros set _. apply bytewise_fills_buffer_if_returns.
    vm_compute. reflexivity.
Defined.

(** X18.  What [check_memset] reports.  When the filler fills the bytes
    compared for every value below [s], and for [s] (a value the loop
    reaches) leaves a first wrong byte at [buffer[j]] among the bytes
    compared, the result is [j + 1]. *)
Theorem check_memset_first_mismatch (P : Platform) (f : filler) fuel u s j m :
  0 <= u <= j -> j < BUFFER_LEN - 2 * u ->
  (Z.to_nat (BUFFER_LEN - 2 * u - u) < fuel)%nat ->
  (Z.to_nat s < fuel)%nat ->
  0 <= s <= (if char_signed then 127 else 255) ->
  Z.of_nat (length (cells m)) = BUFFER_LEN ->
  (forall set, 0 <= set < s -> fills_buffer f fuel u set) ->
  (forall m, Z.of_nat (length (cells m)) = BUFFER_LEN ->
   exists r m' v,
     f fuel m (base m + u) s (BUFFER_LEN - 2 * u) = Done (r, m') /\
     (forall i, u <= i < j -> peek m' (base m + i) = Some (Z.land s 255)) /\
     peek m' (base m + j) = Some v /\ to_char v <> s) ->
  check_memset f fuel u m = Done (j + 1).
Proof.
  intros Hu Hj Hscan Hf Hs Hlen Hgood Hwrong.
  apply (check_memset_reports_first_mismatch f fuel u (base m) s j);
    try assumption. reflexivity.
Qed.

Lemma low7_wrong_at_128 {P : Platform} fuel :
  BUFFER_LEN < size_modulus -> (Z.to_nat BUFFER_LEN < fuel)%nat ->
  char_signed = false ->
  forall m, Z.of_nat (length (cells m)) = BUFFER_LEN ->
  exists r m' v,
    low7_memset fuel m (base m + 0) 128 (BUFFER_LEN - 2 * 0)
    = Done (r, m') /\
    (forall i, 0 <= i < 0 -> peek m' (base m + i) = Some (Z.land 128 255)) /\
    peek m' (base m + 0) = Some v /\ to_char v <> 128.
Proof.
  intros HM Hf Hs m Hlen. unfold low7_memset.
  assert (Hw : writable m (base m + 0) (BUFFER_LEN - 2 * 0))
    by (right; unfold limit; lia).
  rewrite byte_loop_Z; [|unfold BUFFER_LEN in *; lia|exact Hf|exact Hw].
  simpl bind. eexists. eexists. exists 0.
  split; [reflexivity|]. split; [intros i Hi; lia|]. split.
  - apply (proj1 (filled_fills m _ _ (Z.land 128 127) _ Hw)).
    unfold BUFFER_LEN. lia.
  - unfold to_char. rewrite Hs. discriminate.
Qed.

Lemma check_memset_first_mismatch_witness :
  check_memset (P := aarch64) (@low7_memset aarch64) 5000 0 buf4096
  = Done (0 + 1).
Proof.
  apply (check_memset_first_mismatch aarch64 (@low7_memset aarch64)
           5000 0 128 0 buf4096).
  - lia.
  - vm_compute. reflexivity.
  - change (Z.to_nat (BUFFER_LEN - 2 * 0 - 0)) with 4096%nat. lia.
  - change (Z.to_nat 128) with 128%nat. lia.
  - simpl. lia.
  - reflexivity.
  - intros set Hset. apply low7_fills_buffer.
    + vm_compute. reflexivity.
    + change (Z.to_nat BUFFER_LEN) with 4096%nat. lia.
    + lia.
  - apply low7_wrong_at_128.
    + vm_compute. reflexivity.
    + change (Z.to_nat BUFFER_LEN) with 4096%nat. lia.
    + reflexivity.
Defined.

(** ** The driver *)

Section DriverFacts.
Context {P : Platform}.

Lemma CHECK_passed name f fuel u m out :
  check_memset f fuel u m = Done 0 -> CHECK name f fuel u m out = Done out.
Proof. intros H. unfold CHECK. rewrite H. reflexivity. Qed.

Lemma CHECK_failed name f fuel u m out j :
  0 <= j -> check_memset f fuel u m = Done (j + 1) ->
  CHECK name f fuel u m out =
  Done (out +:+ (if negb (u =? 0) then "Unaligned" else "Aligned")
            +:+ " " +:+ name +:+ " check failed on byte "
            +:+ decimal j +:+ "." +:+ newline).
Proof.
  intros Hj H. unfold CHECK. rewrite H. simpl bind.
  destruct (Z.eqb_spec (j + 1) 0) as [H0|_]; [lia|]. simpl negb. cbv iota.
  replace (j + 1 - 1) with j by lia. reflexivity.
Qed.

Lemma CHECK_never_returns name f fuel u m out :
  (forall v, check_memset f fuel u m <> Done v) ->
  forall r, CHECK name f fuel u m out <> Done r.
Proof.
  intros Hnever r H. unfold CHECK in H.
  apply bind_Done in H. destruct H as [v [Hv _]]. exact (Hnever v Hv).
Qed.

End DriverFacts.

(** X19.  What [CHECK] prints.  [check_memset] returns the index of the
    wrong byte plus one and [CHECK] prints that result minus one: in the
    situation of a first wrong byte at [buffer[j]], the line printed names
    [j], with [Aligned] or [Unaligned] after the offset and the name of the
    filler. *)
Theorem CHECK_prints_first_mismatch (P : Platform) name (f : filler)
    fuel u s j m out :
  0 <= u <= j -> j < BUFFER_LEN - 2 * u ->
  (Z.to_nat (BUFFER_LEN - 2 * u - u) < fuel)%nat ->
  (Z.to_nat s < fuel)%nat ->
  0 <= s <= (if char_signed then 127 else 255) ->
  Z.of_nat (length (cells m)) = BUFFER_LEN ->
  (forall set, 0 <= set < s -> fills_buffer f fuel u set) ->
  (forall m, Z.of_nat (length (cells m)) = BUFFER_LEN ->
   exists r m' v,
     f fuel m (base m + u) s (BUFFER_LEN - 2 * u) = Done (r, m') /\
     (forall i, u <= i < j -> peek m' (base m + i) = Some (Z.land s 255)) /\
     peek m' (base m + j) = Some v /\ to_char v <> s) ->
  CHECK name f fuel u m out =
  Done (out +:+ (if negb (u =? 0) then "Unaligned" else "Aligned")
            +:+ " " +:+ name +:+ " check failed on byte "
            +:+ decimal j +:+ "." +:+ newline).
Proof.
  intros Hu Hj Hscan Hf Hs Hlen Hgood Hwrong.
  apply CHECK_failed; [lia|].
  apply (check_memset_reports_first_mismatch f fuel u (base m) s j);
    try assumption. reflexivity.
Qed.

Lemma CHECK_prints_first_mismatch_witness :
  CHECK (P := aarch64) "low7_memset" (@low7_memset aarch64) 5000 0
        buf4096 ""
  = Done ("Aligned low7_memset check failed on byte 0." +:+ newline).
Proof.
  apply (CHECK_prints_first_mismatch aarch64 "low7_memset"
           (@low7_memset aarch64) 5000 0 128 0 buf4096 "").
  - lia.
  - vm_compute. reflexivity.
  - change (Z.to_nat (BUFFER_LEN - 2 * 0 - 0)) with 4096%nat. lia.
  - change (Z.to_nat 128) with 128%nat. lia.
  - simpl. lia.
  - reflexivity.
  - intros set Hset. apply low7_fills_buffer.
    + vm_compute. reflexivity.
    + change (Z.to_nat BUFFER_LEN) with 4096%nat. lia.
    + lia.
  - apply low7_wrong_at_128.
    + vm_compute. reflexivity.
    + change (Z.to_nat BUFFER_LEN) with 4096%nat. lia.
    + reflexivity.
Defined.

Section MainSigned.
Context {P : Platform}.
Variables (memset : filler) (fuel : nat) (buffer : nat -> machine).
Hypothesis signed : char_signed = true.
Hypothesis word_size : (1 <= lg_bytes <= 11)%nat.
Hypothesis enough_fuel : (Z.to_nat BUFFER_LEN < fuel)%nat.
Hypothesis arrays :
  forall k, Z.of_nat (length (cells (buffer k))) = BUFFER_LEN.
Hypothesis memset_right :
  forall u set, u = 0 \/ u = 1 -> 0 <= set <= 127 ->
    fills_buffer memset fuel u set.

Lemma check_passes (f : filler) u k :
  u = 0 \/ u = 1 ->
  (forall set, 0 <= set <= 127 -> fills_buffer f fuel u set) ->
  check_memset f fuel u (buffer k) = Done 0.
Proof.
  intros Hu Hgood.
  assert (Hf : (4096 < fuel)%nat) by exact enough_fuel.
  apply (check_memset_signed f fuel u (base (buffer k)));
    try assumption; try reflexivity.
  - unfold BUFFER_LEN. lia.
  - assert (Z.to_nat (BUFFER_LEN - 2 * u - u) <= 4096)%nat; [|lia].
    change 4096%nat with (Z.to_nat 4096). apply Z2Nat.inj_le;
      unfold BUFFER_LEN; lia.
  - lia.
  - apply arrays.
Qed.

Lemma main_signed : main memset fuel buffer = Done (0, ""%string).
Proof.
  unfold main.
  rewrite (CHECK_passed "memset" memset fuel 0 (buffer 0%nat))
    by (apply check_passes; [left; reflexivity|];
        intros set Hset; apply memset_right; [left; reflexivity|exact Hset]).
  simpl bind.
  rewrite (CHECK_passed "memset" memset fuel 1 (buffer 1%nat))
    by (apply check_passes; [right; reflexivity|];
        intros set Hset; apply memset_right; [right; reflexivity|exact Hset]).
  simpl bind.
  rewrite (CHECK_passed _ bytewise_memset fuel 0 (buffer 2%nat))
    by (apply check_passes; [left; reflexivity|];
        intros set _; apply bytewise_passes; auto).
  simpl bind.
  rewrite (CHECK_passed _ bytewise_memset fuel 1 (buffer 3%nat))
    by (apply check_passes; [right; reflexivity|];
        intros set _; apply bytewise_passes; auto).
  simpl bind.
  rewrite (CHECK_passed _ wordwise_32_memset fuel 0 (buffer 4%nat))
    by (apply check_passes; [left; reflexivity|];
        intros set _; apply wordwise_32_passes; auto).
  simpl bind.
  rewrite (CHECK_passed _ wordwise_memset fuel 0 (buffer 5%nat))
    by (apply check_passes; [left; reflexivity|];
        intros set _; apply wordwise_passes; auto).
  simpl bind.
  rewrite (CHECK_passed _ wordwise_32_unaligned_memset fuel 0
             (buffer 6%nat))
    by (apply check_passes; [left; reflexivity|];
        intros set _; apply wordwise_32_unaligned_passes; auto).
  simpl bind.
  rewrite (CHECK_passed _ wordwise_32_unaligned_memset fuel 1
             (buffer 7%nat))
    by (apply check_passes; [right; reflexivity|];
        intros set _; apply wordwise_32_unaligned_passes; auto).
  simpl bind.
  rewrite (CHECK_passed _ wordwise_unaligned_memset fuel 0 (buffer 8%nat))
    by (apply check_passes; [left; reflexivity|];
        intros set _; apply wordwise_unaligned_passes; auto).
  simpl bind.
  rewrite (CHECK_passed _ wordwise_unaligned_memset fuel 1 (buffer 9%nat))
    by (apply check_passes; [right; reflexivity|];
        intros set _; apply wordwise_unaligned_passes; auto).
  reflexivity.
Qed.

End MainSigned.

(** X20.  The program on a platform with a signed [char]: with a C library
    [memset] that is right for the values 0..127, and words of 2 to 2048
    bytes, [main] runs its ten checks, prints nothing and returns 0.  All
    five fillers pass, the unaligned ones at both offsets: no check makes
    a request that ends before the first boundary. *)
Theorem main_reports_nothing (P : Platform) (memset : filler) fuel buffer :
  char_signed = true -> (1 <= lg_bytes <= 11)%nat ->
  (Z.to_nat BUFFER_LEN < fuel)%nat ->
  (forall k, Z.of_nat (length (cells (buffer k))) = BUFFER_LEN) ->
  (forall u set, u = 0 \/ u = 1 -> 0 <= set <= 127 ->
     fills_buffer memset fuel u set) ->
  main memset fuel buffer = Done (0, ""%string).
Proof.
  intros Hs Hw Hf Hlen Hmem. apply main_signed; assumption.
Qed.

Lemma main_reports_nothing_witness :
  main (P := x86_64) (@bytewise_memset x86_64) 5000 (fun _ => buf4096)
  = Done (0, ""%string).
Proof.
  apply (main_reports_nothing x86_64).
  - reflexivity.
  - simpl. lia.
  - change (Z.to_nat BUFFER_LEN) with 4096%nat. lia.
  - intros k. reflexivity.
  - intros u set Hu _. apply bytewise_passes.
    + simpl. lia.
    + change (Z.to_nat BUFFER_LEN) with 4096%nat. lia.
    + exact Hu.
Defined.

(** X21.  The program on a platform with an unsigned [char]: with a C
    library [memset] that is right whenever it returns, the first check
    never ends, and [main] never returns. *)
Theorem main_hangs_unsigned (P : Platform) (memset : filler) fuel buffer r :
  char_signed = false ->
  (forall k, Z.of_nat (length (cells (buffer k))) = BUFFER_LEN) ->
  (forall set, 0 <= set <= 255 ->
     fills_buffer_if_returns memset fuel 0 set) ->
  main memset fuel buffer <> Done r.
Proof.
  intros Hs Hlen Hmem H. unfold main in H.
  apply bind_Done in H. destruct H as [out [Hcheck _]].
  revert Hcheck. apply CHECK_never_returns. intros v.
  apply (check_memset_unsigned_never_returns memset fuel 0
           (base (buffer 0%nat))); try assumption; [reflexivity|apply Hlen].
Qed.

Lemma main_hangs_unsigned_witness :
  char_signed (Platform := aarch64) = false /\
  main (P := aarch64) (@bytewise_memset aarch64) 5000 (fun _ => buf4096)
  <> Done (0, ""%string).
Proof.
  split; [reflexivity|].
  apply (main_hangs_unsigned aarch64).
  - reflexivity.
  - intros k. reflexivity.
  - intros set _. apply bytewise_fills_buffer_if_returns.
    vm_compute. reflexivity.
Defined.
